(** * The kraken torrent scheduler (client/torrent/scheduler/scheduler.go)

    A shallow embedding of the scheduler's public API, of the goroutines it
    starts and of its shutdown sequence, together with the properties its
    specification states about them.

    The file has four parts:
    - the data model (identifiers, errors, events, channels) and the
      collaborators the scheduler calls through interfaces;
    - the sequential code of each function, written in a small state monad
      that records every call to a collaborator in a trace (calls to the
      logger are left out);
    - a labelled transition system for [Stop] running against the three
      loops started by [start], used for the shutdown properties;
    - the properties, and their instances on concrete inputs. *)

From Stdlib Require Import ZArith DecimalString.
From stdpp Require Import base option list gmap strings.

Local Open Scope Z_scope.

(** ** Identifiers and plain data *)

(** torlib.PeerID and torlib.InfoHash are fixed-length byte arrays; they are
    kept as the number their bytes spell. *)
Definition PeerID := N.
Definition InfoHash := N.

(** A raw network stream (net.Conn) is named by its descriptor. *)
Definition NetConn := nat.

(** A [chan error] is a heap object; [Chan] is its identity. *)
Definition Chan := nat.

(** time.Duration, in nanoseconds. *)
Definition Duration := Z.

(** Go [error] values: the two sentinels of the package, and errors made by
    [errors.New], [fmt.Errorf] or returned by a collaborator, which carry
    only their message. *)
Inductive error :=
| ErrTorrentAlreadyRegistered
| ErrSchedulerStopped
| ErrorString (msg : string).

Global Instance error_eq_dec : EqDecision error.
Proof. solve_decision. Defined.

(** [err.Error()]. *)
Definition Error (e : error) : string :=
  match e with
  | ErrTorrentAlreadyRegistered => "torrent already registered in scheduler"
  | ErrSchedulerStopped => "scheduler has been stopped"
  | ErrorString msg => msg
  end.

(** [fmt.Errorf(prefix + "%s", err)]. *)
Definition Errorf (prefix : string) (err : error) : error :=
  ErrorString (prefix +:+ Error err).

(** The part of storage.Torrent the scheduler reads. *)
Record Torrent := mkTorrent {
  t_Name : string;
  t_InfoHash : InfoHash;
  t_Length : Z;
  t_BytesDownloaded : Z;
}.

Global Instance Torrent_eq_dec : EqDecision Torrent.
Proof. solve_decision. Defined.

(** torlib.MetaInfo: [mi.Info.Name] and [mi.InfoHash]. *)
Record MetaInfo := mkMetaInfo {
  mi_Name : string;
  mi_InfoHash : InfoHash;
}.

Record handshake := mkHandshake {
  h_PeerID : PeerID;
  h_Name : string;
  h_InfoHash : InfoHash;
}.

Global Instance handshake_eq_dec : EqDecision handshake.
Proof. solve_decision. Defined.

(** A handshaked connection. It knows the remote peer, the torrent and the
    raw stream it wraps. *)
Record conn := mkConn {
  c_PeerID : PeerID;
  c_InfoHash : InfoHash;
  c_nc : NetConn;
}.

Global Instance conn_eq_dec : EqDecision conn.
Proof. solve_decision. Defined.

(** The per-torrent transfer engine; the scheduler only reads its torrent. *)
Record dispatcher := mkDispatcher {
  d_Torrent : Torrent;
}.

Global Instance dispatcher_eq_dec : EqDecision dispatcher.
Proof. solve_decision. Defined.

(** torlib.PeerInfo and torlib.AnnouncerResponse. *)
Record PeerInfo := mkPeerInfo {
  pi_PeerID : PeerID;
  pi_IP : string;
  pi_Port : Z;
}.

Global Instance PeerInfo_eq_dec : EqDecision PeerInfo.
Proof. solve_decision. Defined.

Record AnnouncerResponse := mkAnnouncerResponse {
  ar_Interval : Z;
  ar_Peers : list PeerInfo;
}.

(** torrentControl bundles torrent control structures. *)
Record torrentControl := mkTorrentControl {
  tc_Errors : list Chan;
  tc_Dispatcher : dispatcher;
  tc_Complete : bool;
}.

Definition newTorrentControl (d : dispatcher) : torrentControl :=
  {| tc_Errors := []; tc_Dispatcher := d; tc_Complete := false |}.

(** The events handed to the event loop. *)
Inductive event :=
| newTorrentEvent (t : Torrent) (errc : Chan)
| incomingHandshakeEvent (nc : NetConn) (h : handshake)
| incomingConnEvent (c : conn) (t : Torrent)
| outgoingConnEvent (c : conn) (t : Torrent)
| failedHandshakeEvent (peerID : PeerID) (infoHash : InfoHash)
| announceTickEvent
| announceResponseEvent (infoHash : InfoHash) (peers : list PeerInfo)
| announceFailureEvent (d : dispatcher)
| preemptionTickEvent
| cleanupBlacklistEvent
| emitStatsEvent.

Global Instance event_eq_dec : EqDecision event.
Proof. solve_decision. Defined.

(** ** Machine integers and their decimal form *)

(** int64 arithmetic wraps around. *)
Definition wrap64 (z : Z) : Z := (z + 2 ^ 63) mod 2 ^ 64 - 2 ^ 63.

Definition sub64 (a b : Z) : Z := wrap64 (a - b).

Definition in_int64 (z : Z) : Prop := - 2 ^ 63 <= z < 2 ^ 63.

(** [strconv.FormatInt(z, 10)]. *)
Definition FormatInt10 (z : Z) : string := NilZero.string_of_int (Z.to_int z).

(** ** Buffered channels *)

Record chan := mkChan {
  ch_cap : nat;
  ch_buf : list error;
}.

(** [make(chan error, n)]. *)
Definition make_chan (n : nat) : chan := {| ch_cap := n; ch_buf := [] |}.

(** [ch <- e] completes at once when the buffer has room; with a full
    buffer and no receiver the sender blocks ([None]). *)
Definition chan_send (c : chan) (e : error) : option chan :=
  if decide (length (ch_buf c) < ch_cap c)%nat
  then Some {| ch_cap := ch_cap c; ch_buf := ch_buf c ++ [e] |}
  else None.

(** [<-ch] on a buffer that holds a value. *)
Definition chan_recv (c : chan) : option (error * chan) :=
  match ch_buf c with
  | e :: rest => Some (e, {| ch_cap := ch_cap c; ch_buf := rest |})
  | [] => None
  end.

(** ** net/http and net/url values *)

(** url.Values: each key maps to the values added under it, in order. *)
Abbreviation Values := (gmap string (list string)).

(** [v.Add(key, value)] appends to whatever the key already holds. *)
Definition Values_Add (key value : string) (v : Values) : Values :=
  <[key := default [] (v !! key) ++ [value]]> v.

Record URL := mkURL {
  u_Scheme : string;
  u_Host : string;
  u_Path : string;
  u_RawQuery : string;
}.

Record Request := mkRequest {
  r_Method : string;
  r_URL : URL;
}.

Record Client := mkClient {
  cl_Timeout : Duration;
}.

Record Response := mkResponse {
  resp_StatusCode : Z;
  resp_Body : string;
}.

Definition StatusOK : Z := 200.

(** ** Configuration and the scheduler's fixed fields *)

Record Config := mkConfig {
  ListenAddr : string;
  TrackerAddr : string;
  DialTimeout : Duration;
  AnnounceTimeout : Duration;
  AnnounceInterval : Duration;
  PreemptionInterval : Duration;
  BlacklistCleanupInterval : Duration;
  EmitStatsInterval : Duration;
}.

(** The fields of [Scheduler] that are set once by [New]. *)
Record Scheduler := mkScheduler {
  peerID : PeerID;
  ip : string;
  port : string;
  zone : string;
  config : Config;
}.

(** ** Collaborators

    Everything the scheduler reaches through an interface or a package
    outside this file. Calls that do I/O return a value or an error; the
    connection-state tracker and the event loop carry their own state. *)
Record Collaborators := mkCollaborators {
  (* storage.TorrentArchive *)
  GetTorrent : string -> InfoHash -> Torrent + error;
  (* handshake.go, connFactory *)
  receiveHandshake : NetConn -> handshake + error;
  ReciprocateHandshake : NetConn -> Torrent -> handshake -> conn + error;
  SendAndReceiveHandshake : NetConn -> Torrent -> conn + error;
  (* net.DialTimeout(network, addr, timeout) *)
  net_DialTimeout : string -> string -> Duration -> NetConn + error;
  (* dispatcherFactory.New, dispatcher.AddConn *)
  dispatcherFactory_New : Torrent -> dispatcher;
  AddConn : dispatcher -> conn -> option error;
  (* connState *)
  ConnState : Type;
  MovePendingToActive : ConnState -> conn -> option error * ConnState;
  ActiveConns : ConnState -> list conn;
  (* eventLoop *)
  EventLoop : Type;
  Send : EventLoop -> event -> bool * EventLoop;
  EventLoop_Stop : EventLoop -> EventLoop;
  EventLoop_next : EventLoop -> option (event * EventLoop);
  EventLoop_stopped : EventLoop -> bool;
  (* http.Client.Do, bencode.Unmarshal, url.Values.Encode, String() *)
  http_Do : Client -> Request -> Response + error;
  bencode_Unmarshal : string -> AnnouncerResponse + error;
  Values_Encode : Values -> string;
  InfoHash_String : InfoHash -> string;
  PeerID_String : PeerID -> string;
}.

(** The three goroutines launched by [start]. *)
Inductive Loop := EventLoopG | ListenLoopG | TickerLoopG.

Global Instance Loop_eq_dec : EqDecision Loop.
Proof. solve_decision. Defined.

(** ** Observable actions

    Every call that leaves the scheduler is recorded, in program order. *)
Inductive Action :=
| ActGetTorrent (name : string) (ih : InfoHash)
| ActReceiveHandshake (nc : NetConn)
| ActReciprocateHandshake (nc : NetConn) (t : Torrent) (h : handshake)
| ActSendAndReceiveHandshake (nc : NetConn) (t : Torrent)
| ActDial (addr : string) (timeout : Duration)
| ActNetClose (nc : NetConn)
| ActConnClose (c : conn)
| ActSend (e : event) (accepted : bool)
| ActMakeChan (ch : Chan) (size : nat)
| ActChanSend (ch : Chan) (e : error)
| ActMovePendingToActive (c : conn)
| ActDispatcherNew (t : Torrent)
| ActSetControl (h : InfoHash) (ctrl : torrentControl)
| ActAddConn (d : dispatcher) (c : conn)
| ActHttpDo (cli : Client) (req : Request)
| ActReadAll
| ActUnmarshal
| ActBodyClose
(* the shutdown sequence and the loops it waits for *)
| ActCloseDone
| ActListenerClose
| ActEventLoopStop
| ActWgWait
| ActStopComplete
| ActStopReturn (caller : nat)
| ActWgDone (g : Loop)
| ActAccept (nc : NetConn)
| ActHandle (e : event).

Global Instance torrentControl_eq_dec : EqDecision torrentControl.
Proof. solve_decision. Defined.

Global Instance URL_eq_dec : EqDecision URL.
Proof. solve_decision. Defined.

Global Instance Request_eq_dec : EqDecision Request.
Proof. solve_decision. Defined.

Global Instance Client_eq_dec : EqDecision Client.
Proof. solve_decision. Defined.

Global Instance Action_eq_dec : EqDecision Action.
Proof. solve_decision. Defined.

(** Modelled from the spec: what [conn.Close] does (conn.go is not part of
    this file); a connection that is closed has its raw stream closed.
    [closes nc a]: action [a] closes the raw stream [nc], directly or by
    closing the connection object that wraps it. *)
Definition closes (nc : NetConn) (a : Action) : Prop :=
  a = ActNetClose nc \/ exists c, a = ActConnClose c /\ c_nc c = nc.

(** [before P Q tr]: some action satisfying [P] occurs in [tr] strictly
    earlier than every action satisfying [Q]. *)
Definition before (P Q : Action -> Prop) (tr : list Action) : Prop :=
  forall pre a post, tr = pre ++ a :: post -> Q a -> exists b, b ∈ pre /\ P b.

Definition isSend (a : Action) : bool :=
  match a with ActSend _ _ => true | _ => false end.

Definition isHttpDo (a : Action) : bool :=
  match a with ActHttpDo _ _ => true | _ => false end.

(** [a] hands an event to the event loop. *)
Definition sends_event (a : Action) : Prop := exists e ok, a = ActSend e ok.

(** The raw stream [nc] is closed in [tr], and closed before anything is
    sent to the event loop. *)
Definition closed_before_report (nc : NetConn) (tr : list Action) : Prop :=
  (exists a, a ∈ tr /\ closes nc a) /\ before (closes nc) sends_event tr.

Section Sequential.

Variable K : Collaborators.
Variable s : Scheduler.

(** The state the code below reads and writes: the scheduler's mutable
    fields, the error channels handed to callers, and the trace. *)
Record State := mkState {
  torrentControls : gmap InfoHash torrentControl;
  connState : ConnState K;
  eventLoop : EventLoop K;
  chans : gmap Chan chan;
  trace : list Action;
}.

(** A computation either blocks for ever ([None], a send on a full channel
    nobody reads) or returns a value and the next state. *)
Definition M (A : Type) : Type := State -> option (A * State).

#[local] Instance M_ret : MRet M := fun A a st => Some (a, st).
#[local] Instance M_bind : MBind M := fun A B f m st =>
  match m st with
  | Some (a, st') => f a st'
  | None => None
  end.

Definition emit (a : Action) : M unit := fun st =>
  Some (tt, mkState (torrentControls st) (connState st) (eventLoop st)
                    (chans st) (trace st ++ [a])).

Definition get_torrentControls : M (gmap InfoHash torrentControl) :=
  fun st => Some (torrentControls st, st).

(** [s.torrentControls[h] = ctrl]. *)
Definition put_torrentControl (h : InfoHash) (ctrl : torrentControl) : M unit :=
  fun st =>
  Some (tt, mkState (<[h := ctrl]> (torrentControls st)) (connState st)
                    (eventLoop st) (chans st)
                    (trace st ++ [ActSetControl h ctrl])).

(** *** Calls to collaborators *)

Definition torrentArchive_GetTorrent (name : string) (h : InfoHash)
  : M (Torrent + error) :=
  emit (ActGetTorrent name h);; mret (GetTorrent K name h).

Definition nc_Close (nc : NetConn) : M unit := emit (ActNetClose nc).

Definition c_Close (c : conn) : M unit := emit (ActConnClose c).

Definition eventLoop_Send (e : event) : M bool := fun st =>
  let '(ok, l) := Send K (eventLoop st) e in
  Some (ok, mkState (torrentControls st) (connState st) l (chans st)
                    (trace st ++ [ActSend e ok])).

Definition connState_MovePendingToActive (c : conn) : M (option error) :=
  fun st =>
  let '(err, cs) := MovePendingToActive K (connState st) c in
  Some (err, mkState (torrentControls st) cs (eventLoop st) (chans st)
                     (trace st ++ [ActMovePendingToActive c])).

Definition dispatcherFactory_new (t : Torrent) : M dispatcher :=
  emit (ActDispatcherNew t);; mret (dispatcherFactory_New K t).

Definition dispatcher_AddConn (d : dispatcher) (c : conn) : M (option error) :=
  emit (ActAddConn d c);; mret (AddConn K d c).

(** [make(chan error, n)]: a channel nobody holds yet. *)
Definition make_errc (n : nat) : M Chan := fun st =>
  let ch := fresh (dom (chans st)) in
  Some (ch, mkState (torrentControls st) (connState st) (eventLoop st)
                    (<[ch := make_chan n]> (chans st))
                    (trace st ++ [ActMakeChan ch n])).

(** [errc <- e]. *)
Definition errc_send (ch : Chan) (e : error) : M unit := fun st =>
  match chans st !! ch with
  | Some c =>
      match chan_send c e with
      | Some c' =>
          Some (tt, mkState (torrentControls st) (connState st) (eventLoop st)
                            (<[ch := c']> (chans st))
                            (trace st ++ [ActChanSend ch e]))
      | None => None
      end
  | None => None
  end.

(** *** AddTorrent *)

Definition AddTorrent (mi : MetaInfo) : M Chan :=
  (* Buffer size of 1 so sends do not block. *)
  errc ← make_errc 1;
  r ← torrentArchive_GetTorrent (mi_Name mi) (mi_InfoHash mi);
  match r with
  | inr err => errc_send errc err;; mret errc
  | inl t =>
      ok ← eventLoop_Send (newTorrentEvent t errc);
      (if negb ok then errc_send errc ErrSchedulerStopped else mret tt);;
      mret errc
  end.

(** *** Adding handshaked connections (event-loop handlers' helpers) *)

Definition addOutgoingConn (c : conn) (t : Torrent) : M (option error) :=
  err ← connState_MovePendingToActive c;
  match err with
  | Some err =>
      c_Close c;;
      mret (Some (Errorf "cannot add conn to scheduler: " err))
  | None =>
      tcs ← get_torrentControls;
      match tcs !! t_InfoHash t with
      | None =>
          mret (Some (ErrorString
                        "torrent must be created before sending handshake"))
      | Some ctrl =>
          err ← dispatcher_AddConn (tc_Dispatcher ctrl) c;
          match err with
          | Some err =>
              mret (Some (Errorf "cannot add conn to dispatcher: " err))
          | None => mret None
          end
      end
  end.

Definition addIncomingConn (c : conn) (t : Torrent) : M (option error) :=
  err ← connState_MovePendingToActive c;
  match err with
  | Some err =>
      c_Close c;;
      mret (Some (Errorf "cannot add conn to scheduler: " err))
  | None =>
      tcs ← get_torrentControls;
      ctrl ← match tcs !! t_InfoHash t with
             | Some ctrl => mret ctrl
             | None =>
                 d ← dispatcherFactory_new t;
                 let ctrl := newTorrentControl d in
                 put_torrentControl (t_InfoHash t) ctrl;;
                 mret ctrl
             end;
      err ← dispatcher_AddConn (tc_Dispatcher ctrl) c;
      match err with
      | Some err =>
          mret (Some (Errorf "cannot add conn to dispatcher: " err))
      | None => mret None
      end
  end.

(** *** Incoming connections *)

Definition handshakeIncomingConn (nc : NetConn) : M unit :=
  emit (ActReceiveHandshake nc);;
  match receiveHandshake K nc with
  | inr err => nc_Close nc
  | inl h => eventLoop_Send (incomingHandshakeEvent nc h);; mret tt
  end.

Definition doInitIncomingConn (nc : NetConn) (remoteHandshake : handshake)
  : M (conn * Torrent + error) :=
  r ← torrentArchive_GetTorrent (h_Name remoteHandshake)
                                (h_InfoHash remoteHandshake);
  match r with
  | inr err =>
      nc_Close nc;;
      mret (inr (Errorf "failed to open torrent storage: " err))
  | inl t =>
      emit (ActReciprocateHandshake nc t remoteHandshake);;
      match ReciprocateHandshake K nc t remoteHandshake with
      | inr err =>
          nc_Close nc;;
          mret (inr (Errorf "failed to reciprocate handshake: " err))
      | inl c => mret (inl (c, t))
      end
  end.

Definition initIncomingConn (nc : NetConn) (remoteHandshake : handshake)
  : M unit :=
  r ← doInitIncomingConn nc remoteHandshake;
  let e := match r with
           | inr err => failedHandshakeEvent (h_PeerID remoteHandshake)
                                             (h_InfoHash remoteHandshake)
           | inl (c, t) => incomingConnEvent c t
           end in
  eventLoop_Send e;; mret tt.

(** *** Outgoing connections *)

Definition doInitOutgoingConn (peerID : PeerID) (ip : string) (port : Z)
  (t : Torrent) : M (conn + error) :=
  let addr := ip +:+ ":" +:+ FormatInt10 port in
  emit (ActDial addr (DialTimeout (config s)));;
  match net_DialTimeout K "tcp" addr (DialTimeout (config s)) with
  | inr err => mret (inr (Errorf "failed to dial peer: " err))
  | inl nc =>
      emit (ActSendAndReceiveHandshake nc t);;
      match SendAndReceiveHandshake K nc t with
      | inr err =>
          nc_Close nc;;
          mret (inr (Errorf "failed to handshake peer: " err))
      | inl c =>
          if decide (c_PeerID c ≠ peerID) then
            c_Close c;;
            mret (inr (ErrorString "unexpected peer id from handshaked conn"))
          else mret (inl c)
      end
  end.

Definition initOutgoingConn (peerID : PeerID) (ip : string) (port : Z)
  (t : Torrent) : M unit :=
  r ← doInitOutgoingConn peerID ip port t;
  let e := match r with
           | inr err => failedHandshakeEvent peerID (t_InfoHash t)
           | inl c => outgoingConnEvent c t
           end in
  eventLoop_Send e;; mret tt.

(** *** Announcing *)

(** The query of the announce request, built by successive [v.Add]. *)
Definition announceValues (t : Torrent) : Values :=
  let v : Values := ∅ in
  let v := Values_Add "info_hash" (InfoHash_String K (t_InfoHash t)) v in
  let v := Values_Add "peer_id" (PeerID_String K (peerID s)) v in
  let v := Values_Add "port" (port s) v in
  let v := Values_Add "ip" (ip s) v in
  let v := Values_Add "dc" (zone s) v in
  let downloaded := t_BytesDownloaded t in
  let v := Values_Add "downloaded" (FormatInt10 downloaded) v in
  let v := Values_Add "left" (FormatInt10 (sub64 (t_Length t) downloaded)) v in
  (* TODO(codyg): Implement these last two arguments. *)
  let v := Values_Add "uploaded" "0" v in
  let v := Values_Add "event" "" v in
  v.

Definition announceRequest (t : Torrent) : Request :=
  {| r_Method := "GET";
     r_URL := {| u_Host := TrackerAddr (config s);
                 u_Scheme := "http";
                 u_Path := "/announce";
                 u_RawQuery := Values_Encode K (announceValues t) |} |}.

Definition doAnnounce (t : Torrent) : M (list PeerInfo + error) :=
  let req := announceRequest t in
  let cli := {| cl_Timeout := AnnounceTimeout (config s) |} in
  emit (ActHttpDo cli req);;
  match http_Do K cli req with
  | inr err => mret (inr (Errorf "request failed: " err))
  | inl resp =>
      if decide (resp_StatusCode resp ≠ StatusOK) then
        emit ActReadAll;;
        let b := resp_Body resp in
        emit ActBodyClose;;
        mret (inr (ErrorString ("request not ok: "
                                +:+ FormatInt10 (resp_StatusCode resp)
                                +:+ " - " +:+ b)))
      else
        emit ActUnmarshal;;
        match bencode_Unmarshal K (resp_Body resp) with
        | inr err =>
            emit ActBodyClose;;
            mret (inr (Errorf "unmarshal failed: " err))
        | inl ar =>
            emit ActBodyClose;;
            mret (inl (ar_Peers ar))
        end
  end.

Definition announce (d : dispatcher) : M unit :=
  r ← doAnnounce (d_Torrent d);
  let e := match r with
           | inr err => announceFailureEvent d
           | inl peers =>
               announceResponseEvent (t_InfoHash (d_Torrent d)) peers
           end in
  eventLoop_Send e;; mret tt.

End Sequential.

Arguments torrentControls {K} _.
Arguments connState {K} _.
Arguments eventLoop {K} _.
Arguments chans {K} _.
Arguments trace {K} _.

(** ** Shutdown: [Stop] against the loops started by [start]

    [Stop] blocks in [s.once.Do] and in [s.wg.Wait()] on what other
    goroutines do, so it is modelled as a transition system: every label is
    one statement of one goroutine, and [step] is the effect of running it
    (or [None] when that goroutine cannot move: it is blocked, or it is not
    at such a statement). *)

(** sync.Once: nobody has entered [Do], or the first caller is running the
    function, or the function has returned. [Do] runs the function for the
    first caller only, and no call of [Do] returns before that one run has
    returned. *)
Inductive OnceState := OnceIdle | OnceRunning | OnceDone.

(** A loop goroutine runs its loop, then has left it and is about to call
    [s.wg.Done()], then has called it. *)
Inductive GStatus := NotStarted | Running | Finished | Exited.

Global Instance GStatus_eq_dec : EqDecision GStatus.
Proof. solve_decision. Defined.

(** The status of each of the three loops. *)
Record Goroutines := mkGoroutines {
  g_eventLoop : GStatus;
  g_listenLoop : GStatus;
  g_tickerLoop : GStatus;
}.

Definition status (gs : Goroutines) (g : Loop) : GStatus :=
  match g with
  | EventLoopG => g_eventLoop gs
  | ListenLoopG => g_listenLoop gs
  | TickerLoopG => g_tickerLoop gs
  end.

Definition set_status (g : Loop) (v : GStatus) (gs : Goroutines) : Goroutines :=
  match g with
  | EventLoopG => mkGoroutines v (g_listenLoop gs) (g_tickerLoop gs)
  | ListenLoopG => mkGoroutines (g_eventLoop gs) v (g_tickerLoop gs)
  | TickerLoopG => mkGoroutines (g_eventLoop gs) (g_listenLoop gs) v
  end.

(** Where a caller of [Stop] stands. The statements from [PcCloseDone] to
    [PcStopComplete] are the body of the function given to [s.once.Do]. *)
Inductive StopPc :=
| PcOnceDo                        (* s.once.Do(func() { ... }) *)
| PcCloseDone                     (* close(s.done) *)
| PcListenerClose                 (* s.listener.Close() *)
| PcEventLoopStop                 (* s.eventLoop.Stop() *)
| PcWgWait                        (* s.wg.Wait() *)
| PcRangeConns                    (* range s.connState.ActiveConns() *)
| PcCloseConn (todo : list conn)  (* c.Close(), for each c in todo *)
| PcRangeControls                 (* range s.torrentControls *)
| PcNotify (todo : list Chan)     (* errc <- ErrSchedulerStopped, each errc *)
| PcStopComplete                  (* the function returns, so does Do *)
| PcReturned.

Global Instance StopPc_eq_dec : EqDecision StopPc.
Proof. solve_decision. Defined.

(** The four tickers multiplexed by [tickerLoop]. *)
Inductive Tick :=
| AnnounceTick | PreemptionTick | BlacklistCleanupTick | EmitStatsTick.

Definition tickEvent (t : Tick) : event :=
  match t with
  | AnnounceTick => announceTickEvent
  | PreemptionTick => preemptionTickEvent
  | BlacklistCleanupTick => cleanupBlacklistEvent
  | EmitStatsTick => emitStatsEvent
  end.

Section Shutdown.

Variable K : Collaborators.

Record Sched := mkSched {
  st : State K;
  done_closed : bool;             (* s.done *)
  listener_closed : bool;         (* s.listener *)
  wg : nat;                       (* s.wg *)
  once : OnceState;               (* s.once *)
  goroutines : Goroutines;        (* the loops launched by start *)
  callers : list StopPc;          (* the goroutines inside Stop *)
}.

Definition loops (x : Sched) (g : Loop) : GStatus := status (goroutines x) g.

(** A transition label: which goroutine moves, with the choices left to the
    runtime (map iteration order) or to code outside this file (what an
    event handler does to the scheduler's state). *)
Inductive Label :=
(* caller [i] of Stop runs its next statement *)
| LStop (i : nat)
(* caller [i] starts ranging over s.torrentControls, in this order *)
| LStopRange (i : nat) (order : list InfoHash)
(* runEventLoop: Run takes the next event; its handler leaves the controls,
   the tracker and the channels in this state *)
| LHandle (tcs : gmap InfoHash torrentControl) (cs : ConnState K)
          (chs : gmap Chan chan)
(* a loop goroutine leaves its loop *)
| LLeave (g : Loop)
(* a loop goroutine that has left its loop calls s.wg.Done() *)
| LDone (g : Loop)
(* tickerLoop forwards a tick to the event loop *)
| LTick (t : Tick)
(* listenLoop accepts a connection *)
| LAccept (nc : NetConn)
(* some other goroutine (handshake, dial, announce, AddTorrent) calls
   s.eventLoop.Send *)
| LSend (e : event)
(* a caller of AddTorrent receives from its channel *)
| LRecv (ch : Chan).

Definition st_emit (a : Action) (σ : State K) : State K :=
  mkState K (torrentControls σ) (connState σ) (eventLoop σ) (chans σ)
          (trace σ ++ [a]).

Definition st_set_eventLoop (l : EventLoop K) (σ : State K) : State K :=
  mkState K (torrentControls σ) (connState σ) l (chans σ) (trace σ).

Definition st_set_chans (chs : gmap Chan chan) (σ : State K) : State K :=
  mkState K (torrentControls σ) (connState σ) (eventLoop σ) chs (trace σ).

Definition upd_st (f : State K -> State K) (x : Sched) : Sched :=
  mkSched (f (st x)) (done_closed x) (listener_closed x) (wg x) (once x)
          (goroutines x) (callers x).

Definition log (a : Action) : Sched -> Sched := upd_st (st_emit a).

Definition set_pc (i : nat) (pc : StopPc) (x : Sched) : Sched :=
  mkSched (st x) (done_closed x) (listener_closed x) (wg x) (once x)
          (goroutines x) (<[i := pc]> (callers x)).

Definition set_once (o : OnceState) (x : Sched) : Sched :=
  mkSched (st x) (done_closed x) (listener_closed x) (wg x) o
          (goroutines x) (callers x).

Definition set_done_closed (x : Sched) : Sched :=
  mkSched (st x) true (listener_closed x) (wg x) (once x)
          (goroutines x) (callers x).

Definition set_listener_closed (x : Sched) : Sched :=
  mkSched (st x) (done_closed x) true (wg x) (once x)
          (goroutines x) (callers x).

Definition set_wg (n : nat) (x : Sched) : Sched :=
  mkSched (st x) (done_closed x) (listener_closed x) n (once x)
          (goroutines x) (callers x).

Definition set_loop (g : Loop) (v : GStatus) (x : Sched) : Sched :=
  mkSched (st x) (done_closed x) (listener_closed x) (wg x) (once x)
          (set_status g v (goroutines x)) (callers x).

(** The error channels of the controls visited in [order]: what the nested
    loops over [s.torrentControls] and [ctrl.Errors] send on. *)
Definition pendingChans (tcs : gmap InfoHash torrentControl)
  (order : list InfoHash) : list Chan :=
  order ≫= (fun h => from_option tc_Errors [] (tcs !! h)).

(** One statement of [Stop], run by caller [i] standing at [pc]. *)
Definition stop_step (i : nat) (pc : StopPc) (x : Sched) : option Sched :=
  match pc with
  | PcOnceDo =>
      match once x with
      | OnceIdle => Some (set_pc i PcCloseDone (set_once OnceRunning x))
      | OnceRunning => None
      | OnceDone => Some (set_pc i PcReturned (log (ActStopReturn i) x))
      end
  | PcCloseDone =>
      if done_closed x then None
      else Some (set_pc i PcListenerClose
                   (log ActCloseDone (set_done_closed x)))
  | PcListenerClose =>
      Some (set_pc i PcEventLoopStop
              (log ActListenerClose (set_listener_closed x)))
  | PcEventLoopStop =>
      Some (set_pc i PcWgWait
              (log ActEventLoopStop
                 (upd_st (fun σ => st_set_eventLoop
                                     (EventLoop_Stop K (eventLoop σ)) σ) x)))
  | PcWgWait =>
      (* Waits for all loops to stop. *)
      if decide (wg x = 0%nat)
      then Some (set_pc i PcRangeConns (log ActWgWait x))
      else None
  | PcRangeConns =>
      Some (set_pc i (PcCloseConn (ActiveConns K (connState (st x)))) x)
  | PcCloseConn (c :: todo) =>
      Some (set_pc i (PcCloseConn todo) (log (ActConnClose c) x))
  | PcCloseConn [] => Some (set_pc i PcRangeControls x)
  | PcRangeControls => None
  | PcNotify (errc :: todo) =>
      (* Notify local clients of pending torrents that they will not
         complete. *)
      c ← chans (st x) !! errc;
      c' ← chan_send c ErrSchedulerStopped;
      Some (set_pc i (PcNotify todo)
              (log (ActChanSend errc ErrSchedulerStopped)
                 (upd_st (fun σ => st_set_chans (<[errc := c']> (chans σ)) σ)
                    x)))
  | PcNotify [] => Some (set_pc i PcStopComplete x)
  | PcStopComplete =>
      Some (set_pc i PcReturned
              (log (ActStopReturn i)
                 (log ActStopComplete (set_once OnceDone x))))
  | PcReturned => None
  end.

(** Whether a running loop may leave: [tickerLoop] on [<-s.done],
    [listenLoop] on any error of [Accept], the event loop's [Run] once the
    loop has been stopped. *)
Definition may_leave (g : Loop) (x : Sched) : bool :=
  match g with
  | TickerLoopG => done_closed x
  | ListenLoopG => true
  | EventLoopG => EventLoop_stopped K (eventLoop (st x))
  end.

Definition do_send (e : event) (x : Sched) : Sched :=
  let '(ok, l) := Send K (eventLoop (st x)) e in
  log (ActSend e ok) (upd_st (st_set_eventLoop l) x).

Definition step (l : Label) (x : Sched) : option Sched :=
  match l with
  | LStop i => pc ← callers x !! i; stop_step i pc x
  | LStopRange i order =>
      pc ← callers x !! i;
      if decide (pc = PcRangeControls
                 /\ order ≡ₚ (map_to_list (torrentControls (st x))).*1)
      then Some (set_pc i (PcNotify (pendingChans (torrentControls (st x))
                                                  order)) x)
      else None
  | LHandle tcs cs chs =>
      if decide (loops x EventLoopG = Running) then
        '(e, l) ← EventLoop_next K (eventLoop (st x));
        Some (upd_st (fun σ => mkState K tcs cs l chs
                                       (trace σ ++ [ActHandle e])) x)
      else None
  | LLeave g =>
      if decide (loops x g = Running) then
        if may_leave g x then Some (set_loop g Finished x) else None
      else None
  | LDone g =>
      if decide (loops x g = Finished) then
        match wg x with
        | O => None
        | S n => Some (log (ActWgDone g) (set_loop g Exited (set_wg n x)))
        end
      else None
  | LTick t =>
      if decide (loops x TickerLoopG = Running)
      then Some (do_send (tickEvent t) x)
      else None
  | LAccept nc =>
      if decide (loops x ListenLoopG = Running /\ listener_closed x = false)
      then Some (log (ActAccept nc) x)
      else None
  | LSend e => Some (do_send e x)
  | LRecv ch =>
      c ← chans (st x) !! ch;
      '(_, c') ← chan_recv c;
      Some (upd_st (fun σ => st_set_chans (<[ch := c']> (chans σ)) σ) x)
  end.

(** A schedule is a list of labels, run from left to right. *)
Fixpoint run (ls : list Label) (x : Sched) : option Sched :=
  match ls with
  | [] => Some x
  | l :: ls => x' ← step l x; run ls x'
  end.

(** [start]: [s.wg.Add(3)] and the three [go] statements. *)
Definition start (x : Sched) : Sched :=
  mkSched (st x) (done_closed x) (listener_closed x) (wg x + 3)%nat (once x)
          (mkGoroutines Running Running Running) (callers x).

(** The scheduler as [New] leaves it, with [n] goroutines about to call
    [Stop]. *)
Definition New (cs : ConnState K) (l : EventLoop K) (n : nat) : Sched :=
  start (mkSched (mkState K ∅ cs l ∅ []) false false 0 OnceIdle
                 (mkGoroutines NotStarted NotStarted NotStarted)
                 (replicate n PcOnceDo)).

End Shutdown.

Arguments st {K} _.
Arguments done_closed {K} _.
Arguments listener_closed {K} _.
Arguments wg {K} _.
Arguments once {K} _.
Arguments goroutines {K} _.
Arguments callers {K} _.
Arguments loops {K} _ _.

(** ** What the connection properties observe *)

Section ConnObservations.

Variable K : Collaborators.

(** The dispatcher [addIncomingConn] hands the connection to: the one of
    the torrent's control, or a new one when there is no control. *)
Definition incomingDispatcher (tcs : gmap InfoHash torrentControl)
  (t : Torrent) : dispatcher :=
  match tcs !! t_InfoHash t with
  | Some ctrl => tc_Dispatcher ctrl
  | None => dispatcherFactory_New K t
  end.

(** What is left of a connection after a failed add that did not close it:
    the tracker is as the successful move left it, the connection is still
    among its active ones, and no action of the add closed it. *)
Definition left_active (c : conn) (cs' : ConnState K) (σ σ' : State K)
  : Prop :=
  connState σ' = cs'
  /\ c ∈ ActiveConns K (connState σ')
  /\ exists tr, trace σ' = trace σ ++ tr
               /\ forall a, a ∈ tr -> a ≠ ActConnClose c /\ ~ closes (c_nc c) a.

End ConnObservations.

(** ** What the shutdown properties observe *)

(** The actions of the shutdown sequence itself. *)
Definition isTeardown (a : Action) : bool :=
  match a with
  | ActCloseDone | ActListenerClose | ActEventLoopStop | ActWgWait
  | ActConnClose _ | ActChanSend _ _ | ActStopComplete => true
  | _ => false
  end.

Definition isStopReturn (a : Action) : Prop := exists i, a = ActStopReturn i.

(** How many times an action occurs in a trace. *)
Definition occurrences (a : Action) (tr : list Action) : nat :=
  length (filter (eq a) tr).

(** The first four steps, up to the return of [s.wg.Wait()]. *)
Definition head4 : list Action :=
  [ActCloseDone; ActListenerClose; ActEventLoopStop; ActWgWait].

Definition closeActs (cs : list conn) : list Action := ActConnClose <$> cs.

Definition notifyActs (chs : list Chan) : list Action :=
  (fun ch => ActChanSend ch ErrSchedulerStopped) <$> chs.

(** A goroutine that has been started and has not yet called
    [s.wg.Done()] counts for one in the wait group. *)
Definition alive (g : GStatus) : nat :=
  match g with
  | Running | Finished => 1
  | NotStarted | Exited => 0
  end.

(** The statements after [s.wg.Wait()]. *)
Definition past_wait (pc : StopPc) : bool :=
  match pc with
  | PcRangeConns | PcCloseConn _ | PcRangeControls | PcNotify _
  | PcStopComplete => true
  | _ => false
  end.

Section ShutdownObservations.

Variable K : Collaborators.

Definition teardown_trace (x : Sched K) : list Action :=
  filter (fun a => isTeardown a = true) (trace (st x)).

(** The info hashes of the registered torrents, in the map's own order. *)
Definition controlKeys (tcs : gmap InfoHash torrentControl) : list InfoHash :=
  (map_to_list tcs).*1.

(** Every error channel recorded in some control. *)
Definition allPending (tcs : gmap InfoHash torrentControl) : list Chan :=
  pendingChans tcs (controlKeys tcs).


(** What the shutdown sequence has done so far when its caller stands at
    [pc], given the tracker [cs] and the controls [tcs]. *)
Definition progress (cs : ConnState K) (tcs : gmap InfoHash torrentControl)
  (pc : StopPc) (tt : list Action) : Prop :=
  match pc with
  | PcOnceDo | PcReturned => False
  | PcCloseDone => tt = []
  | PcListenerClose => tt = [ActCloseDone]
  | PcEventLoopStop => tt = [ActCloseDone; ActListenerClose]
  | PcWgWait => tt = [ActCloseDone; ActListenerClose; ActEventLoopStop]
  | PcRangeConns => tt = head4
  | PcCloseConn todo =>
      exists closed,
        closed ++ todo = ActiveConns K cs /\ tt = head4 ++ closeActs closed
  | PcRangeControls => tt = head4 ++ closeActs (ActiveConns K cs)
  | PcNotify todo =>
      exists order sent,
        order ≡ₚ controlKeys tcs
        /\ sent ++ todo = pendingChans tcs order
        /\ tt = head4 ++ closeActs (ActiveConns K cs) ++ notifyActs sent
  | PcStopComplete =>
      exists order,
        order ≡ₚ controlKeys tcs
        /\ tt = head4 ++ closeActs (ActiveConns K cs)
                ++ notifyActs (pendingChans tcs order)
  end.

(** The whole sequence, run once. *)
Definition complete (cs : ConnState K) (tcs : gmap InfoHash torrentControl)
  (tt : list Action) : Prop :=
  exists order,
    order ≡ₚ controlKeys tcs
    /\ tt = head4 ++ closeActs (ActiveConns K cs)
            ++ notifyActs (pendingChans tcs order) ++ [ActStopComplete].

(** The invariant of every state reached from [New], in two parts. The
    first is about the wait group and the loops: the counter is the number
    of loops that have not called [Done], and the wait returned only after
    all three had. *)
Record InvLoops (x : Sched K) : Prop := mkInvLoops {
  inv_wg :
    wg x = (alive (loops x EventLoopG) + alive (loops x ListenLoopG)
            + alive (loops x TickerLoopG))%nat;
  inv_started : forall g, loops x g ≠ NotStarted;
  inv_exited : forall g, loops x g = Exited -> ActWgDone g ∈ trace (st x);
  inv_wait :
    forall g, before (eq (ActWgDone g)) (eq ActWgWait) (trace (st x));
}.

(** The second is about [s.once]: at most one caller is inside the
    function given to [Do], what it has done so far is a prefix of the
    sequence, and nobody returns before the sequence is complete. *)
Record InvOnce (x : Sched K) : Prop := mkInvOnce {
  inv_return : before (eq ActStopComplete) isStopReturn (trace (st x));
  inv_once :
    match once x with
    | OnceIdle =>
        Forall (eq PcOnceDo) (callers x) /\ teardown_trace x = []
    | OnceRunning =>
        exists i pc,
          callers x !! i = Some pc
          /\ (forall j pc', j ≠ i -> callers x !! j = Some pc' -> pc' = PcOnceDo)
          /\ progress (connState (st x)) (torrentControls (st x)) pc
                      (teardown_trace x)
          /\ (past_wait pc = true -> wg x = 0%nat)
    | OnceDone =>
        Forall (fun pc => pc = PcOnceDo \/ pc = PcReturned) (callers x)
        /\ complete (connState (st x)) (torrentControls (st x))
                    (teardown_trace x)
        /\ wg x = 0%nat
    end;
}.

Definition Inv (x : Sched K) : Prop := InvLoops x /\ InvOnce x.

End ShutdownObservations.

(** ** Stand-ins for the collaborators

    Used to run the model on concrete inputs. *)

(** Modelled from the spec: the event loop (its code is not in this file).
    [Send] enqueues and answers [true] until the loop has been told to
    stop, after which it answers [false]; [Run] takes events in arrival
    order and processes none once stopped. *)
Record loopState := mkLoopState {
  events : list event;
  stopped : bool;
}.

Definition loop_Send (l : loopState) (e : event) : bool * loopState :=
  if stopped l then (false, l)
  else (true, {| events := events l ++ [e]; stopped := false |}).

Definition loop_Stop (l : loopState) : loopState :=
  {| events := events l; stopped := true |}.

Definition loop_next (l : loopState) : option (event * loopState) :=
  if stopped l then None
  else match events l with
       | e :: rest => Some (e, {| events := rest; stopped := false |})
       | [] => None
       end.

(** Modelled from the spec: the connection-state tracker (its code is not
    in this file). Moving a connection to active fails when its
    (peer, torrent) slot is already active or the peer is blacklisted. *)
Record trackerState := mkTrackerState {
  tr_pending : list (PeerID * InfoHash);
  tr_active : list conn;
  tr_blacklist : list (PeerID * InfoHash);
}.

Definition connKey (c : conn) : PeerID * InfoHash := (c_PeerID c, c_InfoHash c).

Definition tracker_MovePendingToActive (cs : trackerState) (c : conn)
  : option error * trackerState :=
  if decide (connKey c ∈ tr_blacklist cs) then
    (Some (ErrorString "conn is blacklisted"), cs)
  else if decide (connKey c ∈ connKey <$> tr_active cs) then
    (Some (ErrorString "conn already exists"), cs)
  else
    (None, {| tr_pending := filter (fun k => k ≠ connKey c) (tr_pending cs);
              tr_active := tr_active cs ++ [c];
              tr_blacklist := tr_blacklist cs |}).

(** A query string without escaping: [k=v] pairs joined by [&]. *)
Definition plain_Encode (v : Values) : string :=
  foldr (fun '(k, vs) acc =>
           foldr (fun x acc => k +:+ "=" +:+ x +:+ "&" +:+ acc) acc vs)
        "" (map_to_list v).

Definition testCollaborators : Collaborators :=
  {| GetTorrent name h :=
       if decide (h = 0%N) then inr (ErrorString "torrent not found")
       else inl (mkTorrent name h 100 40);
     receiveHandshake nc :=
       if decide (nc = 0%nat) then inr (ErrorString "EOF")
       else inl (mkHandshake (N.of_nat nc) "blob" 7%N);
     ReciprocateHandshake nc t h :=
       if decide (nc = 2%nat) then inr (ErrorString "broken pipe")
       else inl (mkConn (h_PeerID h) (t_InfoHash t) nc);
     SendAndReceiveHandshake nc t :=
       if decide (nc = 3%nat) then inr (ErrorString "connection reset")
       else inl (mkConn (N.of_nat nc) (t_InfoHash t) nc);
     net_DialTimeout network addr timeout :=
       if decide (addr = "10.0.0.9:6881") then inr (ErrorString "i/o timeout")
       else inl (String.length addr);
     dispatcherFactory_New t := mkDispatcher t;
     AddConn d c :=
       if decide (c_PeerID c = 66%N) then Some (ErrorString "conn rejected")
       else None;
     ConnState := trackerState;
     MovePendingToActive := tracker_MovePendingToActive;
     ActiveConns := tr_active;
     EventLoop := loopState;
     Send := loop_Send;
     EventLoop_Stop := loop_Stop;
     EventLoop_next := loop_next;
     EventLoop_stopped := stopped;
     http_Do cli req :=
       if decide (u_Host (r_URL req) = "down:80")
       then inr (ErrorString "connection refused")
       else if decide (u_Host (r_URL req) = "busy:80")
       then inl (mkResponse 503 "try later")
       else if decide (u_Host (r_URL req) = "junk:80")
       then inl (mkResponse 200 "garbage")
       else inl (mkResponse 200 "d5:peersle");
     bencode_Unmarshal body :=
       if decide (body = "garbage") then inr (ErrorString "bad bencode")
       else inl (mkAnnouncerResponse 30 [mkPeerInfo 9%N "10.0.0.2" 6881]);
     Values_Encode := plain_Encode;
     InfoHash_String h := FormatInt10 (Z.of_N h);
     PeerID_String p := FormatInt10 (Z.of_N p) |}.

Definition testConfig (tracker : string) : Config :=
  {| ListenAddr := ":6881"; TrackerAddr := tracker;
     DialTimeout := 5000000000; AnnounceTimeout := 3000000000;
     AnnounceInterval := 1000000000; PreemptionInterval := 1000000000;
     BlacklistCleanupInterval := 1000000000;
     EmitStatsInterval := 1000000000 |}.

Definition testScheduler (tracker : string) : Scheduler :=
  {| peerID := 1%N; ip := "10.0.0.1"; port := "6881"; zone := "sjc1";
     config := testConfig tracker |}.

Definition testState : State testCollaborators :=
  mkState testCollaborators ∅ (mkTrackerState [] [] []) (mkLoopState [] false)
          ∅ [].

Definition demoTorrent : Torrent := mkTorrent "blob" 7%N 100 40.

Definition demoHandshake : handshake := mkHandshake 5%N "blob" 7%N.

Definition demoConn : conn := mkConn 5%N 7%N 1%nat.

Definition demoDispatcher : dispatcher := mkDispatcher demoTorrent.

(** A connection the stand-in dispatcher refuses. *)
Definition refusedConn : conn := mkConn 66%N 7%N 1%nat.

Definition demoState (tcs : gmap InfoHash torrentControl)
  (cs : trackerState) (l : loopState) : State testCollaborators :=
  mkState testCollaborators tcs cs l ∅ [].

Definition runningLoop : loopState := mkLoopState [] false.

Definition stoppedLoop : loopState := mkLoopState [] true.

(** [demoConn] is pending and its peer is blacklisted. *)
Definition blacklistedState : State testCollaborators :=
  demoState ∅ (mkTrackerState [(5%N, 7%N)] [] [(5%N, 7%N)]) runningLoop.

(** [demoConn] is pending; its torrent has no control yet. *)
Definition pendingState : State testCollaborators :=
  demoState ∅ (mkTrackerState [(5%N, 7%N)] [] []) runningLoop.

(** [refusedConn] is pending, without and with a control for its torrent. *)
Definition refusedPending : State testCollaborators :=
  demoState ∅ (mkTrackerState [(66%N, 7%N)] [] []) runningLoop.

Definition refusedPendingKnown : State testCollaborators :=
  demoState {[ 7%N := newTorrentControl demoDispatcher ]}
            (mkTrackerState [(66%N, 7%N)] [] []) runningLoop.

(** The event loop has been stopped. *)
Definition stoppedState : State testCollaborators :=
  demoState ∅ (mkTrackerState [] [] []) stoppedLoop.

Definition demoControls : gmap InfoHash torrentControl :=
  {[ 7%N := mkTorrentControl [0%nat] demoDispatcher false ]}.

(** A run of [Stop] with two callers: a torrent is added and a connection
    becomes active, then caller 0 runs the shutdown sequence while the three
    loops leave, and caller 1 returns after it. *)
Definition demoSchedule : list (Label testCollaborators) :=
  [ LSend testCollaborators (newTorrentEvent demoTorrent 0%nat);
    LHandle testCollaborators demoControls (mkTrackerState [] [demoConn] [])
            {[ 0%nat := make_chan 1 ]};
    LStop _ 0%nat; LStop _ 0%nat; LStop _ 0%nat;
    LLeave _ ListenLoopG; LDone _ ListenLoopG;
    LStop _ 0%nat;
    LLeave _ TickerLoopG; LDone _ TickerLoopG;
    LLeave _ EventLoopG; LDone _ EventLoopG;
    LStop _ 0%nat; LStop _ 0%nat; LStop _ 0%nat; LStop _ 0%nat;
    LStopRange _ 0%nat [7%N];
    LStop _ 0%nat; LStop _ 0%nat; LStop _ 0%nat;
    LStop _ 1%nat ].

Definition demoNew : Sched testCollaborators :=
  New testCollaborators (mkTrackerState [] [] []) runningLoop 2.

(** The state [demoSchedule] ends in. *)
Definition demoFinal : Sched testCollaborators :=
  Eval vm_compute in
    default demoNew (run testCollaborators demoSchedule demoNew).







(** ** What the further properties observe *)

(** [a] closes a raw stream or a connection. *)
Definition isClose (a : Action) : bool :=
  match a with ActNetClose _ | ActConnClose _ => true | _ => false end.

Section MoreObservations.

Variable K : Collaborators.

(** The scheduler's core state is as it was. *)
Definition same_core (σ σ' : State K) : Prop :=
  torrentControls σ' = torrentControls σ /\ connState σ' = connState σ.

(** The event loop is as it was, or as one [Send] left it. *)
Definition loop_untouched_or_sent (σ σ' : State K) : Prop :=
  eventLoop σ' = eventLoop σ
  \/ exists e, eventLoop σ' = (Send K (eventLoop σ) e).2.

End MoreObservations.

Definition isBodyClose (a : Action) : bool :=
  match a with ActBodyClose => true | _ => false end.

Definition isHandle (a : Action) : bool :=
  match a with ActHandle _ => true | _ => false end.

Section MoreShutdownObservations.

Variable K : Collaborators.

(** No goroutine inside [Stop] can run its next statement. *)
Definition stop_blocked (x : Sched K) : Prop :=
  (forall j, step K (LStop K j) x = None)
  /\ (forall j order, step K (LStopRange K j order) x = None).

(** [close(s.done)] has not happened before anybody entered [s.once.Do], nor
    while the caller inside it has yet to run it; and [tickerLoop] has left
    its loop only after it. *)
Record InvDone (x : Sched K) : Prop := mkInvDone {
  inv_done_idle : once x = OnceIdle -> done_closed x = false;
  inv_done_pc :
    forall i, callers x !! i = Some PcCloseDone -> done_closed x = false;
  inv_done_trace : done_closed x = true -> ActCloseDone ∈ trace (st x);
  inv_done_ticker :
    loops x TickerLoopG = Finished \/ loops x TickerLoopG = Exited ->
    done_closed x = true;
  inv_done_before :
    before (eq ActCloseDone) (eq (ActWgDone TickerLoopG)) (trace (st x));
}.



(** The state of [x] once the first caller of [Stop] stands at [pc], the
    channels are [chs], and [acts] have been added to the trace. *)
Definition after (x : Sched K) (pc : StopPc) (chs : gmap Chan chan)
  (acts : list Action) : Sched K :=
  mkSched K
    (mkState K (torrentControls (st x)) (connState (st x)) (eventLoop (st x))
             chs (trace (st x) ++ acts))
    (done_closed x) (listener_closed x) (wg x) (once x) (goroutines x)
    (<[0%nat := pc]> (callers x)).

End MoreShutdownObservations.

(** ** Building the scheduler: [New] and its options *)

Module Construct.

Section Construct.

Variable K : Collaborators.

(** clock.Clock and net.Listener come from outside this file. *)
Variables Clock Listener : Type.

(** schedOverrides defines Scheduler fields which may be overrided for
    testing purposes. *)
Record schedOverrides := mkSchedOverrides {
  o_clock : Clock;
  o_eventLoop : EventLoop K;
}.

(** [type option func(o *schedOverrides)]: what the function makes of the
    overrides it is handed. *)
Definition sched_option : Type := schedOverrides -> schedOverrides.

Definition withClock (c : Clock) : sched_option :=
  fun o => {| o_clock := c; o_eventLoop := o_eventLoop o |}.

Definition withEventLoop (l : EventLoop K) : sched_option :=
  fun o => {| o_clock := o_clock o; o_eventLoop := l |}.

(** peercontext.PeerContext. *)
Record PeerContext := mkPeerContext {
  pctx_PeerID : PeerID;
  pctx_IP : string;
  pctx_Port : Z;
  pctx_Zone : string;
}.

(** [c.Ticker(d)]: a ticker remembers the clock that made it and its
    period. *)
Record Ticker := mkTicker {
  tk_Clock : Clock;
  tk_Interval : Duration;
}.

(** The two factories, without the parts of the configuration and the
    stats scope they are given. *)
Record connFactory := mkConnFactory {
  cf_LocalPeerID : PeerID;
  cf_EventSender : EventLoop K;
  cf_Clock : Clock;
}.

Record dispatcherFactory := mkDispatcherFactory {
  df_Config : Config;
  df_LocalPeerID : PeerID;
  df_EventSender : EventLoop K;
  df_Clock : Clock;
}.

(** What [New] returns: the fixed fields, the collaborators it wired up,
    and the state with its three loops started. *)
Record Built := mkBuilt {
  b_fixed : Scheduler;
  b_clock : Clock;
  b_connFactory : connFactory;
  b_dispatcherFactory : dispatcherFactory;
  b_listener : Listener;
  b_announceTicker : Ticker;
  b_preemptionTicker : Ticker;
  b_blacklistCleanupTicker : Ticker;
  b_emitStatsTicker : Ticker;
  b_sched : Sched K;
}.

(** The calls of [New] that reach the operating system or the clock. *)
Inductive Effect :=
| EffListen (network addr : string)
| EffTicker (c : Clock) (d : Duration).

(** [config.applyDefaults], [net.Listen], [clock.New], [newEventLoop] and
    [newConnState] (which reads the conn-state part of the configuration
    it is given). *)
Variable applyDefaults : Config -> Config + error.
Variable net_Listen : string -> string -> Listener + error.
Variable clock_New : Clock.
Variable newEventLoop : EventLoop K.
Variable newConnState : PeerID -> Config -> Clock -> ConnState K.

(** The overrides after every option has been applied, first to last. *)
Definition applyOptions (options : list sched_option) : schedOverrides :=
  foldl (fun o opt => opt o)
        {| o_clock := clock_New; o_eventLoop := newEventLoop |} options.

(** New creates and starts a Scheduler; [n] goroutines are about to call
    [Stop] on it. *)
Definition New (config : Config) (pctx : PeerContext)
  (options : list sched_option) (n : nat) : (Built + error) * list Effect :=
  match applyDefaults config with
  | inr err => (inr (Errorf "invalid config: " err), [])
  | inl config =>
      match net_Listen "tcp" (ListenAddr config) with
      | inr err => (inr err, [EffListen "tcp" (ListenAddr config)])
      | inl l =>
          let overrides := applyOptions options in
          let s :=
            {| b_fixed :=
                 {| peerID := pctx_PeerID pctx;
                    ip := pctx_IP pctx;
                    port := FormatInt10 (pctx_Port pctx);
                    zone := pctx_Zone pctx;
                    config := config |};
               b_clock := o_clock overrides;
               b_connFactory :=
                 {| cf_LocalPeerID := pctx_PeerID pctx;
                    cf_EventSender := o_eventLoop overrides;
                    cf_Clock := o_clock overrides |};
               b_dispatcherFactory :=
                 {| df_Config := config;
                    df_LocalPeerID := pctx_PeerID pctx;
                    df_EventSender := o_eventLoop overrides;
                    df_Clock := o_clock overrides |};
               b_listener := l;
               b_announceTicker :=
                 mkTicker (o_clock overrides) (AnnounceInterval config);
               b_preemptionTicker :=
                 mkTicker (o_clock overrides) (PreemptionInterval config);
               b_blacklistCleanupTicker :=
                 mkTicker (o_clock overrides)
                          (BlacklistCleanupInterval config);
               b_emitStatsTicker :=
                 mkTicker (o_clock overrides) (EmitStatsInterval config);
               b_sched :=
                 start K
                   (mkSched K
                      (mkState K ∅
                         (newConnState (pctx_PeerID pctx) config
                                       (o_clock overrides))
                         (o_eventLoop overrides) ∅ [])
                      false false 0 OnceIdle
                      (mkGoroutines NotStarted NotStarted NotStarted)
                      (replicate n PcOnceDo)) |} in
          (inl s,
           [EffListen "tcp" (ListenAddr config);
            EffTicker (o_clock overrides) (AnnounceInterval config);
            EffTicker (o_clock overrides) (PreemptionInterval config);
            EffTicker (o_clock overrides) (BlacklistCleanupInterval config);
            EffTicker (o_clock overrides) (EmitStatsInterval config)])
      end
  end.

(** The option that asks for a clock or for an event loop. *)
Definition option_for (r : Clock + EventLoop K) : sched_option :=
  match r with
  | inl c => withClock c
  | inr l => withEventLoop l
  end.

(** The clocks, and the event loops, asked for by a list of requests, in
    order. *)
Definition clocks_in (rs : list (Clock + EventLoop K)) : list Clock :=
  omap (fun r => match r with inl c => Some c | inr _ => None end) rs.

Definition loops_in (rs : list (Clock + EventLoop K)) : list (EventLoop K) :=
  omap (fun r => match r with inl _ => None | inr l => Some l end) rs.

End Construct.

Arguments o_clock {K Clock}.
Arguments o_eventLoop {K Clock}.
Arguments tk_Clock {Clock}.
Arguments tk_Interval {Clock}.
Arguments cf_LocalPeerID {K Clock}.
Arguments cf_EventSender {K Clock}.
Arguments cf_Clock {K Clock}.
Arguments df_Config {K Clock}.
Arguments df_LocalPeerID {K Clock}.
Arguments df_EventSender {K Clock}.
Arguments df_Clock {K Clock}.
Arguments b_fixed {K Clock Listener}.
Arguments b_clock {K Clock Listener}.
Arguments b_connFactory {K Clock Listener}.
Arguments b_dispatcherFactory {K Clock Listener}.
Arguments b_listener {K Clock Listener}.
Arguments b_announceTicker {K Clock Listener}.
Arguments b_preemptionTicker {K Clock Listener}.
Arguments b_blacklistCleanupTicker {K Clock Listener}.
Arguments b_emitStatsTicker {K Clock Listener}.
Arguments b_sched {K Clock Listener}.
Arguments EffListen {Clock}.
Arguments EffTicker {Clock}.
Arguments withClock {K Clock}.
Arguments withEventLoop {K Clock}.
Arguments option_for {K Clock}.
Arguments clocks_in {K Clock}.
Arguments loops_in {K Clock}.
Arguments applyOptions {K Clock}.
Arguments New {K Clock Listener}.

End Construct.

(** ** More concrete inputs *)

(** [demoSchedule] cut short: before [Stop] is called, with caller 0 about
    to close [s.done], with [listenLoop] past its loop, with caller 0 in
    [s.wg.Wait()], and just after the wait. *)
Definition demoIdle : Sched testCollaborators :=
  Eval vm_compute in
    default demoNew (run testCollaborators (take 2 demoSchedule) demoNew).

Definition demoClosing : Sched testCollaborators :=
  Eval vm_compute in
    default demoNew (run testCollaborators (take 3 demoSchedule) demoNew).

Definition demoLeaving : Sched testCollaborators :=
  Eval vm_compute in
    default demoNew (run testCollaborators (take 6 demoSchedule) demoNew).

Definition demoWaiting : Sched testCollaborators :=
  Eval vm_compute in
    default demoNew (run testCollaborators (take 8 demoSchedule) demoNew).

Definition demoWaited : Sched testCollaborators :=
  Eval vm_compute in
    default demoNew (run testCollaborators (take 13 demoSchedule) demoNew).

(** A run in which the client never reads the channel of its torrent,
    which already holds an error when [Stop] comes to it. *)
Definition fullSchedule : list (Label testCollaborators) :=
  [ LSend testCollaborators (newTorrentEvent demoTorrent 0%nat);
    LHandle testCollaborators demoControls (mkTrackerState [] [] [])
            {[ 0%nat := mkChan 1 [ErrTorrentAlreadyRegistered] ]};
    LStop _ 0%nat; LStop _ 0%nat; LStop _ 0%nat; LStop _ 0%nat;
    LLeave _ ListenLoopG; LDone _ ListenLoopG;
    LLeave _ TickerLoopG; LDone _ TickerLoopG;
    LLeave _ EventLoopG; LDone _ EventLoopG;
    LStop _ 0%nat; LStop _ 0%nat; LStop _ 0%nat;
    LStopRange _ 0%nat [7%N] ].

Definition demoFull : Sched testCollaborators :=
  Eval vm_compute in
    default demoNew (run testCollaborators fullSchedule demoNew).



(** [demoConn] has been added by [addIncomingConn] from [pendingState]. *)
Definition pendingAdded : State testCollaborators :=
  mkState testCollaborators
    (<[7%N := newTorrentControl demoDispatcher]> ∅)
    (mkTrackerState [] [demoConn] []) runningLoop ∅
    [ActMovePendingToActive demoConn; ActDispatcherNew demoTorrent;
     ActSetControl 7%N (newTorrentControl demoDispatcher);
     ActAddConn demoDispatcher demoConn].

Definition secondConn : conn := mkConn 6%N 7%N 2%nat.

(** More reported downloaded than the torrent is long. *)
Definition overfullTorrent : Torrent := mkTorrent "blob" 7%N 40 100.

(** Stand-ins for what [New] calls: clocks and listeners are numbers, a
    configuration without tracker is invalid, a missing listen address is
    filled in, and port 80 cannot be listened on. *)
Definition testApplyDefaults (c : Config) : Config + error :=
  if decide (TrackerAddr c = "") then inr (ErrorString "no tracker")
  else if decide (ListenAddr c = "")
       then inl (mkConfig ":5081" (TrackerAddr c) (DialTimeout c)
                          (AnnounceTimeout c) (AnnounceInterval c)
                          (PreemptionInterval c) (BlacklistCleanupInterval c)
                          (EmitStatsInterval c))
       else inl c.

Definition testListen (network addr : string) : nat + error :=
  if decide (addr = ":80") then inr (ErrorString "permission denied")
  else inl 1%nat.

Definition testNew (config : Config)
  (pctx : Construct.PeerContext)
  (options : list (Construct.sched_option testCollaborators nat)) (n : nat)
  : (Construct.Built testCollaborators nat nat + error)
    * list (Construct.Effect nat) :=
  Construct.New (K := testCollaborators) testApplyDefaults testListen 0%nat
                runningLoop (fun _ _ _ => mkTrackerState [] [] [])
                config pctx options n.

Definition demoPeerContext : Construct.PeerContext :=
  Construct.mkPeerContext 1%N "10.0.0.1" 6881 "sjc1".

Definition demoRequests : list (nat + EventLoop testCollaborators) :=
  [inl 5%nat; inr stoppedLoop; inl 9%nat].

(** * Properties *)

(** ** Reasoning about monadic code *)

Ltac msimpl :=
  cbn [mbind mret M_bind M_ret];
  unfold torrentArchive_GetTorrent, nc_Close, c_Close, eventLoop_Send,
    connState_MovePendingToActive, dispatcherFactory_new, dispatcher_AddConn,
    make_errc, errc_send, get_torrentControls, put_torrentControl, emit;
  unfold mbind, mret, M_bind, M_ret; cbn -[fresh].

Ltac norm_trace := rewrite <- ?app_assoc; cbn [app].

Section SequentialProperties.

Variable K : Collaborators.
Variable s : Scheduler.

Implicit Types (σ : State K) (c : conn) (t : Torrent) (nc : NetConn).

(** *** Connection admission *)

(** C5. When the tracker refuses to move the connection from pending to
    active, both [addIncomingConn] and [addOutgoingConn] close the
    connection and return the wrapped error. The outcome below does not
    mention the control map: it is returned as it was, and the only actions
    are the tracker call and the close, whatever the map holds. *)
Theorem admission_failure_closes_and_aborts c t σ err cs' :
  MovePendingToActive K (connState σ) c = (Some err, cs') ->
  let res := Some (Errorf "cannot add conn to scheduler: " err) in
  let σ' := mkState K (torrentControls σ) cs' (eventLoop σ) (chans σ)
              (trace σ ++ [ActMovePendingToActive c; ActConnClose c]) in
  addIncomingConn K c t σ = Some (res, σ')
  /\ addOutgoingConn K c t σ = Some (res, σ').
Proof.
  intros Hmove res σ'. subst res σ'.
  unfold addIncomingConn, addOutgoingConn. msimpl.
  rewrite Hmove. split; cbn; norm_trace; done.
Qed.

(** C4. Once the tracker has moved the connection to active and the
    torrent has no control: [addIncomingConn] asks the dispatcher factory for
    a dispatcher, stores a new control under the torrent's info hash, and
    only then hands the connection to that dispatcher (the control stays
    registered whatever the dispatcher answers); [addOutgoingConn] fails and
    neither creates nor stores anything. *)
Theorem missing_control_created_for_incoming_only c t σ cs' :
  MovePendingToActive K (connState σ) c = (None, cs') ->
  torrentControls σ !! t_InfoHash t = None ->
  let d := dispatcherFactory_New K t in
  let ctrl := newTorrentControl d in
  (exists res σ',
      addIncomingConn K c t σ = Some (res, σ')
      /\ torrentControls σ' = <[t_InfoHash t := ctrl]> (torrentControls σ)
      /\ trace σ' = trace σ ++ [ActMovePendingToActive c; ActDispatcherNew t;
                                 ActSetControl (t_InfoHash t) ctrl;
                                 ActAddConn d c])
  /\ (exists σ',
        addOutgoingConn K c t σ
        = Some (Some (ErrorString
                        "torrent must be created before sending handshake"),
                σ')
        /\ torrentControls σ' = torrentControls σ
        /\ trace σ' = trace σ ++ [ActMovePendingToActive c]).
Proof.
  intros Hmove Hnone d ctrl. split.
  - unfold addIncomingConn. msimpl. rewrite Hmove. cbn. rewrite Hnone. cbn.
    fold d. destruct (AddConn K d c); cbn; norm_trace; eauto.
  - unfold addOutgoingConn. msimpl. rewrite Hmove. cbn. rewrite Hnone. cbn.
    eauto.
Qed.

(** C10. After the tracker has moved the connection to active, a rejection
    by the dispatcher (either direction) or a missing control (outgoing)
    makes the add return an error, yet the connection is not closed and the
    tracker still lists it as active. *)
Theorem rejected_after_activation_left_active c t σ cs' :
  MovePendingToActive K (connState σ) c = (None, cs') ->
  c ∈ ActiveConns K cs' ->
  (forall err,
      AddConn K (incomingDispatcher K (torrentControls σ) t) c = Some err ->
      exists σ',
        addIncomingConn K c t σ
        = Some (Some (Errorf "cannot add conn to dispatcher: " err), σ')
        /\ left_active K c cs' σ σ')
  /\ (forall ctrl err,
        torrentControls σ !! t_InfoHash t = Some ctrl ->
        AddConn K (tc_Dispatcher ctrl) c = Some err ->
        exists σ',
          addOutgoingConn K c t σ
          = Some (Some (Errorf "cannot add conn to dispatcher: " err), σ')
          /\ left_active K c cs' σ σ')
  /\ (torrentControls σ !! t_InfoHash t = None ->
      exists σ',
        addOutgoingConn K c t σ
        = Some (Some (ErrorString
                        "torrent must be created before sending handshake"),
                σ')
        /\ left_active K c cs' σ σ').
Proof.
  intros Hmove Hact.
  assert (Hno : forall tr : list Action,
             (forall a, a ∈ tr -> match a with
                                  | ActConnClose _ | ActNetClose _ => False
                                  | _ => True
                                  end) ->
             forall a, a ∈ tr -> a ≠ ActConnClose c /\ ~ closes (c_nc c) a).
  { intros tr Htr a Ha. specialize (Htr a Ha). split.
    - intros ->. done.
    - intros [-> | (c0 & -> & _)]; done. }
  split; [|split].
  - intros err Hadd. unfold incomingDispatcher in Hadd.
    unfold addIncomingConn. msimpl. rewrite Hmove. cbn.
    destruct (torrentControls σ !! t_InfoHash t) as [ctrl|] eqn:Hctrl; cbn;
      rewrite Hadd; cbn; norm_trace;
      (eexists; split; [reflexivity|]);
      (split; [reflexivity|]; split; [exact Hact|]);
      (eexists; split; [reflexivity|]); apply Hno;
      intros a Ha; repeat (apply elem_of_cons in Ha as [-> | Ha]; [done|]);
      by apply elem_of_nil in Ha.
  - intros ctrl err Hctrl Hadd.
    unfold addOutgoingConn. msimpl. rewrite Hmove. cbn. rewrite Hctrl. cbn.
    rewrite Hadd. cbn. norm_trace.
    eexists; split; [reflexivity|].
    split; [reflexivity|]; split; [exact Hact|].
    eexists; split; [reflexivity|]. apply Hno.
    intros a Ha; repeat (apply elem_of_cons in Ha as [-> | Ha]; [done|]).
    by apply elem_of_nil in Ha.
  - intros Hctrl.
    unfold addOutgoingConn. msimpl. rewrite Hmove. cbn. rewrite Hctrl. cbn.
    eexists; split; [reflexivity|].
    split; [reflexivity|]; split; [exact Hact|].
    eexists; split; [reflexivity|]. apply Hno.
    intros a Ha; repeat (apply elem_of_cons in Ha as [-> | Ha]; [done|]).
    by apply elem_of_nil in Ha.
Qed.

(** *** AddTorrent *)

Lemma fresh_chan_unused σ : chans σ !! fresh (dom (chans σ)) = None.
Proof. apply not_elem_of_dom, is_fresh. Qed.

(** C2. [AddTorrent] always returns, and the channel it returns is a new
    one with a buffer of one slot. If the archive lookup fails, the channel
    holds that error, the event loop is untouched and no event was sent to
    it. If the lookup succeeds and [Send] answers [false], the channel holds
    [ErrSchedulerStopped]. In both cases a receive on the returned channel
    completes at once. If [Send] answers [true] the channel is returned
    empty. *)
Theorem AddTorrent_never_leaves_caller_waiting (mi : MetaInfo) σ :
  let errc := fresh (dom (chans σ)) in
  let lookup := GetTorrent K (mi_Name mi) (mi_InfoHash mi) in
  exists σ',
    AddTorrent K mi σ = Some (errc, σ')
    /\ chans σ !! errc = None
    /\ ch_cap <$> chans σ' !! errc = Some 1%nat
    /\ (forall err,
          lookup = inr err ->
          chans σ' !! errc = Some (mkChan 1 [err])
          /\ chan_recv (mkChan 1 [err]) = Some (err, mkChan 1 [])
          /\ eventLoop σ' = eventLoop σ
          /\ trace σ' = trace σ ++ [ActMakeChan errc 1;
                                     ActGetTorrent (mi_Name mi) (mi_InfoHash mi);
                                     ActChanSend errc err])
    /\ (forall t,
          lookup = inl t ->
          (Send K (eventLoop σ) (newTorrentEvent t errc)).1 = false ->
          chans σ' !! errc = Some (mkChan 1 [ErrSchedulerStopped])
          /\ chan_recv (mkChan 1 [ErrSchedulerStopped])
             = Some (ErrSchedulerStopped, mkChan 1 [])
          /\ trace σ' = trace σ ++ [ActMakeChan errc 1;
                                     ActGetTorrent (mi_Name mi) (mi_InfoHash mi);
                                     ActSend (newTorrentEvent t errc) false;
                                     ActChanSend errc ErrSchedulerStopped])
    /\ (forall t,
          lookup = inl t ->
          (Send K (eventLoop σ) (newTorrentEvent t errc)).1 = true ->
          chans σ' !! errc = Some (mkChan 1 [])
          /\ trace σ' = trace σ ++ [ActMakeChan errc 1;
                                     ActGetTorrent (mi_Name mi) (mi_InfoHash mi);
                                     ActSend (newTorrentEvent t errc) true]).
Proof.
  intros errc lookup. unfold AddTorrent. msimpl. fold errc. fold lookup.
  destruct lookup as [t | err] eqn:Hlookup; cbn.
  - destruct (Send K (eventLoop σ) (newTorrentEvent t errc)) as [ok l] eqn:HS.
    destruct ok; cbn.
    + eexists. split; [reflexivity|]. cbn.
      split; [apply fresh_chan_unused|].
      rewrite lookup_insert_eq. split; [done|].
      split; [intros; discriminate|]. split.
      * intros t' [= <-]. rewrite HS. cbn. discriminate.
      * intros t' [= <-] _. norm_trace. done.
    + rewrite lookup_insert_eq. cbn.
      eexists. split; [reflexivity|]. cbn.
      split; [apply fresh_chan_unused|].
      rewrite lookup_insert_eq. split; [done|].
      split; [intros; discriminate|]. split.
      * intros t' [= <-] _. norm_trace. done.
      * intros t' [= <-]. rewrite HS. cbn. discriminate.
  - rewrite lookup_insert_eq. cbn.
    eexists. split; [reflexivity|]. cbn.
    split; [apply fresh_chan_unused|].
    rewrite lookup_insert_eq. split; [done|].
    split; [|split; intros; discriminate].
    intros err' [= <-]. norm_trace. done.
Qed.

(** *** Handshakes *)

Ltac solve_closes :=
  first [left; reflexivity
        | right; eexists; split; [reflexivity|first [assumption|reflexivity]]].

(** [tr] is an explicit list in which [a] closes the stream before the one
    send at its end. *)
Ltac solve_closed_by a :=
  split;
  [exists a; split; [set_solver | solve_closes]
  |let pre := fresh "pre" in
   let Heq := fresh "Heq" in
   intros pre ? ? Heq (? & ? & ->);
   repeat (destruct pre as [|? pre]; simplify_eq/=);
   exists a; split; [set_solver | solve_closes]].

(** C3. On every path where the handshake fails with a raw stream in hand,
    the stream is closed first: [handshakeIncomingConn] closes it and
    returns without sending anything; [initIncomingConn] (archive lookup or
    reciprocation failed) and [initOutgoingConn] (dial-side handshake failed,
    or the peer answered with another id) close it and only then send the
    [failedHandshakeEvent]. In the last case it is the connection object
    wrapping the stream that is closed. *)
Theorem failed_handshake_closed_before_event :
  (forall nc σ err,
      receiveHandshake K nc = inr err ->
      exists σ',
        handshakeIncomingConn K nc σ = Some (tt, σ')
        /\ eventLoop σ' = eventLoop σ
        /\ trace σ' = trace σ ++ [ActReceiveHandshake nc; ActNetClose nc])
  /\ (forall nc h σ err,
        GetTorrent K (h_Name h) (h_InfoHash h) = inr err ->
        exists σ' ok tr,
          initIncomingConn K nc h σ = Some (tt, σ')
          /\ trace σ' = trace σ ++ tr
          /\ tr = [ActGetTorrent (h_Name h) (h_InfoHash h); ActNetClose nc;
                   ActSend (failedHandshakeEvent (h_PeerID h) (h_InfoHash h))
                           ok]
          /\ closed_before_report nc tr)
  /\ (forall nc h σ t err,
        GetTorrent K (h_Name h) (h_InfoHash h) = inl t ->
        ReciprocateHandshake K nc t h = inr err ->
        exists σ' ok tr,
          initIncomingConn K nc h σ = Some (tt, σ')
          /\ trace σ' = trace σ ++ tr
          /\ tr = [ActGetTorrent (h_Name h) (h_InfoHash h);
                   ActReciprocateHandshake nc t h; ActNetClose nc;
                   ActSend (failedHandshakeEvent (h_PeerID h) (h_InfoHash h))
                           ok]
          /\ closed_before_report nc tr)
  /\ (forall peer ip port t σ nc err,
        let addr := ip +:+ ":" +:+ FormatInt10 port in
        net_DialTimeout K "tcp" addr (DialTimeout (config s)) = inl nc ->
        SendAndReceiveHandshake K nc t = inr err ->
        exists σ' ok tr,
          initOutgoingConn K s peer ip port t σ = Some (tt, σ')
          /\ trace σ' = trace σ ++ tr
          /\ tr = [ActDial addr (DialTimeout (config s));
                   ActSendAndReceiveHandshake nc t; ActNetClose nc;
                   ActSend (failedHandshakeEvent peer (t_InfoHash t)) ok]
          /\ closed_before_report nc tr)
  /\ (forall peer ip port t σ nc c,
        let addr := ip +:+ ":" +:+ FormatInt10 port in
        net_DialTimeout K "tcp" addr (DialTimeout (config s)) = inl nc ->
        SendAndReceiveHandshake K nc t = inl c ->
        c_nc c = nc ->
        c_PeerID c ≠ peer ->
        exists σ' ok tr,
          initOutgoingConn K s peer ip port t σ = Some (tt, σ')
          /\ trace σ' = trace σ ++ tr
          /\ tr = [ActDial addr (DialTimeout (config s));
                   ActSendAndReceiveHandshake nc t; ActConnClose c;
                   ActSend (failedHandshakeEvent peer (t_InfoHash t)) ok]
          /\ closed_before_report nc tr).
Proof.
  repeat split.
  - intros nc σ err Hrecv. unfold handshakeIncomingConn. msimpl.
    rewrite Hrecv. cbn. norm_trace. eauto.
  - intros nc h σ err Hget.
    unfold initIncomingConn, doInitIncomingConn. msimpl. rewrite Hget. cbn.
    destruct (Send K _ _) as [ok l]. cbn. norm_trace.
    eexists _, ok, _. split; [reflexivity|]. split; [reflexivity|].
    split; [reflexivity|]. solve_closed_by (ActNetClose nc).
  - intros nc h σ t err Hget Hrec.
    unfold initIncomingConn, doInitIncomingConn. msimpl. rewrite Hget. cbn.
    rewrite Hrec. cbn.
    destruct (Send K _ _) as [ok l]. cbn. norm_trace.
    eexists _, ok, _. split; [reflexivity|]. split; [reflexivity|].
    split; [reflexivity|]. solve_closed_by (ActNetClose nc).
  - intros peer ip port t σ nc err addr Hdial Hhs.
    unfold initOutgoingConn, doInitOutgoingConn. msimpl. fold addr.
    rewrite Hdial. cbn. rewrite Hhs. cbn.
    destruct (Send K _ _) as [ok l]. cbn. norm_trace.
    eexists _, ok, _. split; [reflexivity|]. split; [reflexivity|].
    split; [reflexivity|]. solve_closed_by (ActNetClose nc).
  - intros peer ip port t σ nc c addr Hdial Hhs Hnc Hne.
    unfold initOutgoingConn, doInitOutgoingConn. msimpl. fold addr.
    rewrite Hdial. cbn. rewrite Hhs. cbn.
    destruct (decide (c_PeerID c ≠ peer)) as [_|Heq]; [|done]. cbn.
    destruct (Send K _ _) as [ok l]. cbn. norm_trace.
    eexists _, ok, _. split; [reflexivity|]. split; [reflexivity|].
    split; [reflexivity|]. solve_closed_by (ActConnClose c).
Qed.

(** C8. When the dialled peer completes the handshake under an id other
    than the expected one, [doInitOutgoingConn] closes the connection and
    returns an error; [initOutgoingConn] then reports a
    [failedHandshakeEvent], and no [outgoingConnEvent] is sent. *)
Theorem peer_id_mismatch_closes_and_fails peer ip port t σ nc c :
  let addr := ip +:+ ":" +:+ FormatInt10 port in
  net_DialTimeout K "tcp" addr (DialTimeout (config s)) = inl nc ->
  SendAndReceiveHandshake K nc t = inl c ->
  c_PeerID c ≠ peer ->
  (exists σ',
      doInitOutgoingConn K s peer ip port t σ
      = Some (inr (ErrorString "unexpected peer id from handshaked conn"), σ')
      /\ eventLoop σ' = eventLoop σ
      /\ trace σ' = trace σ ++ [ActDial addr (DialTimeout (config s));
                                 ActSendAndReceiveHandshake nc t;
                                 ActConnClose c])
  /\ (exists σ' ok tr,
        initOutgoingConn K s peer ip port t σ = Some (tt, σ')
        /\ trace σ' = trace σ ++ tr
        /\ filter (fun a => isSend a = true) tr
           = [ActSend (failedHandshakeEvent peer (t_InfoHash t)) ok]
        /\ forall c' t' ok', ActSend (outgoingConnEvent c' t') ok' ∉ tr).
Proof.
  intros addr Hdial Hhs Hne. split.
  - unfold doInitOutgoingConn. msimpl. fold addr. rewrite Hdial. cbn.
    rewrite Hhs. cbn.
    destruct (decide (c_PeerID c ≠ peer)) as [_|Heq]; [|done]. cbn.
    norm_trace. eauto.
  - unfold initOutgoingConn, doInitOutgoingConn. msimpl. fold addr.
    rewrite Hdial. cbn. rewrite Hhs. cbn.
    destruct (decide (c_PeerID c ≠ peer)) as [_|Heq]; [|done]. cbn.
    destruct (Send K _ _) as [ok l]. cbn. norm_trace.
    eexists _, ok, _. split; [reflexivity|]. split; [reflexivity|].
    split; [reflexivity|]. intros c' t' ok' Hin.
    repeat (apply elem_of_cons in Hin as [Hin | Hin]; [discriminate|]).
    by apply elem_of_nil in Hin.
Qed.

(** *** Announcing *)

Lemma wrap64_in_range z : in_int64 z -> wrap64 z = z.
Proof.
  unfold in_int64, wrap64. intros Hz.
  rewrite Z.mod_small; lia.
Qed.

Lemma announceValues_eq t :
  announceValues K s t
  = list_to_map
      [("info_hash", [InfoHash_String K (t_InfoHash t)]);
       ("peer_id", [PeerID_String K (peerID s)]);
       ("port", [port s]);
       ("ip", [ip s]);
       ("dc", [zone s]);
       ("downloaded", [FormatInt10 (t_BytesDownloaded t)]);
       ("left", [FormatInt10 (sub64 (t_Length t) (t_BytesDownloaded t))]);
       ("uploaded", ["0"]);
       ("event", [""])].
Proof.
  unfold announceValues, Values_Add.
  repeat (rewrite lookup_insert_ne by done). rewrite lookup_empty. cbn.
  apply map_eq. intros k.
  repeat (rewrite lookup_insert; case_decide; [done|]). done.
Qed.

(** [doAnnounce] always returns, touches nothing but the trace, sends no
    event, and calls the tracker once. *)
Lemma doAnnounce_returns t σ :
  exists r tr,
    doAnnounce K s t σ
    = Some (r, mkState K (torrentControls σ) (connState σ) (eventLoop σ)
                       (chans σ) (trace σ ++ tr))
    /\ filter (fun a => isSend a = true) tr = []
    /\ filter (fun a => isHttpDo a = true) tr
       = [ActHttpDo (mkClient (AnnounceTimeout (config s)))
                    (announceRequest K s t)].
Proof.
  unfold doAnnounce. msimpl.
  destruct (http_Do K _ _) as [resp | err]; cbn.
  - destruct (decide (resp_StatusCode resp ≠ StatusOK)); cbn.
    + norm_trace. eexists _, _. split; [reflexivity|]. done.
    + destruct (bencode_Unmarshal K _); cbn; norm_trace;
        (eexists _, _; split; [reflexivity|]; done).
  - eexists _, _. split; [reflexivity|]. done.
Qed.

(** C6. The announce request is a GET of [/announce] on the tracker, whose
    query is the encoding of exactly nine parameters: info_hash, peer_id,
    port, ip, dc, downloaded, left, uploaded ("0") and event (empty), with
    left the int64 difference of length and bytes downloaded (their exact
    difference whenever that fits in an int64). The client carries the
    configured announce timeout and is called exactly once. The result is
    the decoded peer list when the call succeeds with status 200 and the
    body decodes, and an error in the three other cases and only then. *)
Theorem doAnnounce_request_and_outcome t σ :
  let req := announceRequest K s t in
  let cli := mkClient (AnnounceTimeout (config s)) in
  let v := announceValues K s t in
  req = mkRequest "GET" (mkURL "http" (TrackerAddr (config s)) "/announce"
                               (Values_Encode K v))
  /\ v = list_to_map
           [("info_hash", [InfoHash_String K (t_InfoHash t)]);
            ("peer_id", [PeerID_String K (peerID s)]);
            ("port", [port s]);
            ("ip", [ip s]);
            ("dc", [zone s]);
            ("downloaded", [FormatInt10 (t_BytesDownloaded t)]);
            ("left", [FormatInt10 (sub64 (t_Length t) (t_BytesDownloaded t))]);
            ("uploaded", ["0"]);
            ("event", [""])]
  /\ (in_int64 (t_Length t - t_BytesDownloaded t) ->
      sub64 (t_Length t) (t_BytesDownloaded t)
      = t_Length t - t_BytesDownloaded t)
  /\ exists r σ' tr,
      doAnnounce K s t σ = Some (r, σ')
      /\ trace σ' = trace σ ++ tr
      /\ filter (fun a => isHttpDo a = true) tr = [ActHttpDo cli req]
      /\ (forall peers,
            r = inl peers <->
            exists resp ar,
              http_Do K cli req = inl resp
              /\ resp_StatusCode resp = StatusOK
              /\ bencode_Unmarshal K (resp_Body resp) = inl ar
              /\ peers = ar_Peers ar)
      /\ ((exists err, r = inr err) <->
          (exists e, http_Do K cli req = inr e)
          \/ (exists resp, http_Do K cli req = inl resp
                           /\ resp_StatusCode resp ≠ StatusOK)
          \/ (exists resp e, http_Do K cli req = inl resp
                             /\ resp_StatusCode resp = StatusOK
                             /\ bencode_Unmarshal K (resp_Body resp) = inr e)).
Proof.
  intros req cli v.
  split; [reflexivity|]. split; [apply announceValues_eq|].
  split; [apply wrap64_in_range|].
  unfold doAnnounce. msimpl. fold req. fold cli.
  destruct (http_Do K cli req) as [resp | err] eqn:Hdo; cbn.
  - destruct (decide (resp_StatusCode resp ≠ StatusOK)) as [Hne | Heq]; cbn.
    + norm_trace. eexists _, _, _. split; [reflexivity|].
      split; [reflexivity|]. split; [reflexivity|]. split.
      * intros peers. split; [discriminate|].
        intros (resp' & ar & [= <-] & Hok & _). done.
      * split; [|by eauto]. intros _. right. left. eauto.
    + apply dec_stable in Heq.
      destruct (bencode_Unmarshal K (resp_Body resp)) as [ar | e] eqn:Hdec;
        cbn; norm_trace;
        (eexists _, _, _; split; [reflexivity|];
         split; [reflexivity|]; split; [reflexivity|]); split.
      * intros peers. split.
        -- intros [= <-]. eauto 10.
        -- intros (resp' & ar' & [= <-] & _ & Hdec' & ->).
           rewrite Hdec in Hdec'. by injection Hdec' as <-.
      * split; [intros [? [=]]|].
        intros [[e [=]] | [(resp' & [= <-] & Hne) | (resp' & e & [= <-] & _ & Hdec')]];
          [done|]. rewrite Hdec in Hdec'. discriminate.
      * intros peers. split; [discriminate|].
        intros (resp' & ar' & [= <-] & _ & Hdec' & _).
        rewrite Hdec in Hdec'. discriminate.
      * split; [|by eauto]. intros _. right. right. eauto 10.
  - eexists _, _, _. split; [reflexivity|]. split; [reflexivity|].
    split; [reflexivity|]. split.
    + intros peers. split; [discriminate|]. intros (? & ? & [=] & _).
    + split; [|by eauto]. intros _. left. eauto.
Qed.


End SequentialProperties.

(** ** Shutdown *)

Section ShutdownProperties.

Variable K : Collaborators.

Implicit Types (x : Sched K).

Lemma before_nil (P Q : Action -> Prop) : before P Q [].
Proof. intros pre a post Heq. by destruct pre. Qed.

Lemma before_snoc (P Q : Action -> Prop) tr a :
  before P Q tr -> (Q a -> exists b, b ∈ tr /\ P b) -> before P Q (tr ++ [a]).
Proof.
  intros Htr Ha pre a' post Heq HQ.
  destruct post as [|b post _] using rev_ind.
  - apply app_inj_tail in Heq as [<- <-]. auto.
  - rewrite app_comm_cons, app_assoc in Heq.
    apply app_inj_tail in Heq as [-> _]. eauto.
Qed.

Lemma before_snoc_other (P Q : Action -> Prop) tr a :
  before P Q tr -> ~ Q a -> before P Q (tr ++ [a]).
Proof. intros Htr Ha. apply before_snoc; [done|]. intros HQ. done. Qed.

Lemma all_exited x :
  InvLoops K x -> wg x = 0%nat -> forall g, loops x g = Exited.
Proof.
  intros [Hwg Hst _ _] H0 g. rewrite H0 in Hwg.
  pose proof (Hst EventLoopG). pose proof (Hst ListenLoopG).
  pose proof (Hst TickerLoopG).
  destruct g;
    destruct (loops x EventLoopG), (loops x ListenLoopG),
      (loops x TickerLoopG); cbn in Hwg; done || lia.
Qed.

(** Case analysis on one step: one goal per statement that can run. *)
Ltac step_cases Hstep :=
  match type of Hstep with
  | step _ ?l _ = _ => destruct l; cbn in Hstep
  end;
  repeat match type of Hstep with
    | context [callers ?x !! ?i] =>
        let Hpc := fresh "Hpc" in
        destruct (callers x !! i) as [[]|] eqn:Hpc; cbn in Hstep
    end;
  unfold do_send in Hstep;
  repeat (match type of Hstep with
          | context [decide ?P] => destruct (decide P)
          | context [EventLoop_next ?K ?l] =>
              destruct (EventLoop_next K l) as [[? ?]|] eqn:?
          | context [Send ?K ?l ?e] => destruct (Send K l e) as [? ?] eqn:?
          | context [chan_recv ?c] => destruct (chan_recv c) as [[? ?]|] eqn:?
          | context [chan_send ?c ?e] => destruct (chan_send c e) eqn:?
          | context [chans ?s !! ?c] => destruct (chans s !! c) eqn:?
          | context [may_leave ?K ?g ?x] => destruct (may_leave K g x) eqn:?
          | context [match ?t with _ => _ end] => destruct t eqn:?
          end; cbn in Hstep);
  try discriminate Hstep;
  try (injection Hstep as <-);
  try match goal with
      | H : _ = PcRangeControls /\ _ |- _ =>
          let H1 := fresh in
          destruct H as [H1 ?]; try discriminate H1; clear H1
      end.

Lemma loops_set_loop g v x g' :
  loops (set_loop K g v x) g' = if decide (g' = g) then v else loops x g'.
Proof. by destruct g, g'. Qed.

Lemma loops_set_wg n x g : loops (set_wg K n x) g = loops x g.
Proof. done. Qed.

Lemma loops_log a x g : loops (log K a x) g = loops x g.
Proof. done. Qed.

Ltac trace_tac :=
  cbn;
  repeat first
    [ assumption
    | apply before_snoc_other; [|by (intros ?; simplify_eq)]
    | match goal with
      | |- _ ∈ _ ++ [_] => apply elem_of_app; left
      end ].

Lemma step_InvLoops l x x' :
  step K l x = Some x' -> InvLoops K x -> InvLoops K x'.
Proof.
  intros Hstep HI.
  pose proof (all_exited x HI) as Hall.
  destruct HI as [Hwg Hst Hex Hwait].
  step_cases Hstep.
  all: split;
    [ rewrite ?loops_log, ?loops_set_wg; try exact Hwg
    | try exact Hst
    | intros g0; rewrite ?loops_log, ?loops_set_wg;
      try (intros Hg0; specialize (Hex g0 Hg0); trace_tac)
    | intros g0; specialize (Hwait g0); try trace_tac ].
  - apply before_snoc; [done|]. intros _.
    exists (ActWgDone g0). split; [|done]. by apply Hex, Hall.
  - rewrite !loops_set_loop. destruct g; rewrite e in Hwg; exact Hwg.
  - intros g0. rewrite loops_set_loop. case_decide; [done|apply Hst].
  - rewrite loops_set_loop. case_decide; [done|apply Hex].
  - rewrite !loops_set_loop, ?loops_set_wg. cbn [wg log upd_st set_loop set_wg].
    destruct g; rewrite e in Hwg; repeat case_decide; try done;
      cbn in Hwg |- *; lia.
  - intros g0. rewrite loops_log, loops_set_loop, loops_set_wg.
    case_decide; [done|apply Hst].
  - rewrite loops_set_loop, loops_set_wg. case_decide as Hg.
    + subst g0. intros _. apply elem_of_app. right.
      by apply list_elem_of_singleton.
    + intros Hg0. apply elem_of_app. left. by apply Hex.
Qed.

Lemma teardown_trace_log a x :
  teardown_trace K (log K a x)
  = teardown_trace K x ++ (if isTeardown a then [a] else []).
Proof.
  unfold teardown_trace. cbn. rewrite filter_app. f_equal.
  destruct a; reflexivity.
Qed.

Lemma progress_before_wait cs tcs cs' tcs' pc tt :
  past_wait pc = false ->
  progress K cs tcs pc tt -> progress K cs' tcs' pc tt.
Proof. by destruct pc. Qed.

(** The caller found inside the function given to [Do] is the only one. *)
Lemma runner_facts x i pc :
  InvOnce K x ->
  callers x !! i = Some pc ->
  pc ≠ PcOnceDo -> pc ≠ PcReturned ->
  once x = OnceRunning
  /\ (forall j pc', j ≠ i -> callers x !! j = Some pc' -> pc' = PcOnceDo)
  /\ progress K (connState (st x)) (torrentControls (st x)) pc
              (teardown_trace K x)
  /\ (past_wait pc = true -> wg x = 0%nat).
Proof.
  intros [_ Honce] Hpc Hne1 Hne2.
  destruct (once x).
  - destruct Honce as [Hall _].
    rewrite Forall_lookup in Hall. by specialize (Hall i pc Hpc).
  - destruct Honce as (i0 & pc0 & Hpc0 & Hothers & Hprog & Hwait).
    destruct (decide (i = i0)) as [->|Hne].
    + rewrite Hpc in Hpc0. by injection Hpc0 as <-.
    + by specialize (Hothers i pc Hne Hpc).
  - destruct Honce as (Hall & _).
    rewrite Forall_lookup in Hall. by destruct (Hall i pc Hpc).
Qed.

(** The running caller moves from [pc] to [pc']. *)
Lemma runner_step x x' i pc pc' :
  once x' = OnceRunning ->
  callers x' = <[i := pc']> (callers x) ->
  callers x !! i = Some pc ->
  (forall j pc', j ≠ i -> callers x !! j = Some pc' -> pc' = PcOnceDo) ->
  progress K (connState (st x')) (torrentControls (st x')) pc'
           (teardown_trace K x') ->
  (past_wait pc' = true -> wg x' = 0%nat) ->
  before (eq ActStopComplete) isStopReturn (trace (st x')) ->
  InvOnce K x'.
Proof.
  intros Ho Hc Hpc Hothers Hprog Hwait Hret.
  split; [done|]. rewrite Ho. exists i, pc'. rewrite Hc.
  split; [apply list_lookup_insert_eq; by eapply lookup_lt_Some|].
  split; [|done].
  intros j pc'' Hne. rewrite list_lookup_insert_ne by done. by apply Hothers.
Qed.

(** A step of another goroutine, which leaves [Stop]'s callers alone. *)
Lemma InvOnce_env x x' :
  InvOnce K x ->
  once x' = once x ->
  callers x' = callers x ->
  teardown_trace K x' = teardown_trace K x ->
  before (eq ActStopComplete) isStopReturn (trace (st x')) ->
  (wg x = 0%nat ->
   wg x' = 0%nat
   /\ connState (st x') = connState (st x)
   /\ torrentControls (st x') = torrentControls (st x)) ->
  InvOnce K x'.
Proof.
  intros [_ Honce] Ho Hc Htt Hret Hfrozen.
  split; [done|]. rewrite Ho, Hc, Htt.
  destruct (once x).
  - done.
  - destruct Honce as (i & pc & Hpc & Hothers & Hprog & Hwait).
    exists i, pc. split; [done|]. split; [done|].
    destruct (past_wait pc) eqn:Hpast.
    + destruct (Hfrozen (Hwait eq_refl)) as (-> & -> & ->). done.
    + split; [|done]. by eapply progress_before_wait.
  - destruct Honce as (Hall & Hcomp & Hwg).
    destruct (Hfrozen Hwg) as (-> & -> & ->). done.
Qed.

Ltac env_case HI Hret :=
  apply (InvOnce_env _ _ HI);
  [ reflexivity
  | reflexivity
  | unfold teardown_trace; cbn; rewrite ?filter_app; cbn;
    by rewrite ?app_nil_r
  | cbn; first [exact Hret
               | apply before_snoc_other; [exact Hret | intros [? [=]]]]
  | try (cbn; done) ].

Lemma step_InvOnce l x x' :
  step K l x = Some x' -> InvLoops K x -> InvOnce K x -> InvOnce K x'.
Proof.
  intros Hstep HL HI.
  pose proof (all_exited x HL) as Hall.
  pose proof (inv_return K x HI) as Hret.
  step_cases Hstep.
  all: try (destruct (runner_facts x i _ HI Hpc) as (Ho & Hothers & Hprog & Hwait);
            [done|done|];
            eapply (runner_step x _ i);
            [exact Ho | reflexivity | exact Hpc | exact Hothers
            | unfold teardown_trace in *; cbn in Hprog |- *;
              rewrite ?filter_app; cbn;
              rewrite ?decide_True by done
            | cbn; first [discriminate | intros _; assumption | exact Hwait]
            | cbn; first [exact Hret
                         | apply before_snoc_other;
                           [exact Hret | intros [? [=]]]] ]).
  - (* the first caller enters Do *)
    destruct HI as [_ Honce]. rewrite Heqo in Honce.
    destruct Honce as [Hidle Htt].
    eapply (runner_step x _ i); [reflexivity|reflexivity|exact Hpc| | | |exact Hret].
    + intros j pc' _ Hj. rewrite Forall_lookup in Hidle.
      symmetry. by eapply Hidle.
    + exact Htt.
    + discriminate.
  - (* a caller finds the sequence done and returns *)
    destruct HI as [_ Honce]. rewrite Heqo in Honce.
    destruct Honce as (Hdone & Hcomp & Hwg).
    split.
    + cbn. apply before_snoc; [done|]. intros _.
      exists ActStopComplete. split; [|done].
      destruct Hcomp as (order & _ & Htt).
      assert (Hin : ActStopComplete ∈ teardown_trace K x).
      { rewrite Htt. set_solver. }
      unfold teardown_trace in Hin. by apply list_elem_of_filter in Hin as [_ ?].
    + cbn. rewrite Heqo. split; [|split; [|done]].
      * apply Forall_insert; [done|by right].
      * unfold teardown_trace in *. cbn. rewrite filter_app. cbn.
        by rewrite app_nil_r.
  - by rewrite Hprog.
  - by rewrite Hprog.
  - by rewrite Hprog.
  - by rewrite Hprog.
  - exists []. by rewrite Hprog.
  - destruct Hprog as (closed & Hcl & ->). rewrite app_nil_r in Hcl.
    by subst closed.
  - destruct Hprog as (closed & Hcl & ->). exists (closed ++ [c]).
    split; [by rewrite <- app_assoc|].
    unfold closeActs. by rewrite fmap_app.
  - destruct Hprog as (order & sent & Hperm & Hsent & ->).
    rewrite app_nil_r in Hsent. subst sent. by exists order.
  - destruct Hprog as (order & sent & Hperm & Hsent & ->).
    exists order, (sent ++ [c]). split; [done|].
    split; [by rewrite <- app_assoc|].
    unfold notifyActs. cbn. by rewrite fmap_app, app_assoc.
  - (* the sequence completes and its caller returns *)
    destruct (runner_facts x i _ HI Hpc) as (Ho & Hothers & Hprog & Hwait);
      [done|done|].
    destruct Hprog as (order & Hperm & Htt).
    split.
    + cbn. apply before_snoc.
      * apply before_snoc_other; [done|]. intros [? [=]].
      * intros _. exists ActStopComplete. split; [|done].
        apply elem_of_app. right. by apply list_elem_of_singleton.
    + cbn. split; [|split; [|by apply Hwait]].
      * apply Forall_lookup. intros j pc' Hj.
        destruct (decide (j = i)) as [->|Hne].
        -- rewrite list_lookup_insert_eq in Hj by (by eapply lookup_lt_Some).
           right. by injection Hj.
        -- rewrite list_lookup_insert_ne in Hj by done.
           left. by eapply Hothers.
      * exists order. split; [done|].
        unfold teardown_trace in *. cbn. rewrite !filter_app. cbn.
        rewrite Htt, app_nil_r. cbn. rewrite decide_True by done.
        by rewrite <- app_assoc.
  - rewrite Hprog. exists order, [].
    split; [done|]. split; [done|]. cbn. by rewrite app_nil_r.
  - env_case HI Hret. intros Hwg.
    specialize (Hall Hwg EventLoopG). unfold loops in *. cbn in *.
    congruence.
  - env_case HI Hret.
  - env_case HI Hret. intros Hwg. congruence.
  - env_case HI Hret.
  - env_case HI Hret.
  - env_case HI Hret.
  - env_case HI Hret.
Qed.

Lemma New_Inv cs l n : Inv K (New K cs l n).
Proof.
  split.
  - split; cbn; [done|by intros []|by intros []|].
    intros g. apply before_nil.
  - split; cbn; [apply before_nil|].
    split; [|done]. apply Forall_forall. intros pc Hpc.
    by apply elem_of_replicate in Hpc as [-> _].
Qed.

Lemma run_Inv ls x x' : run K ls x = Some x' -> Inv K x -> Inv K x'.
Proof.
  revert x. induction ls as [|l ls IH]; intros x Hrun HI; cbn in Hrun.
  - by injection Hrun as <-.
  - destruct (step K l x) as [x1|] eqn:Hstep; [|done]. cbn in Hrun.
    apply (IH x1 Hrun). destruct HI as [HL HO].
    split; [by eapply step_InvLoops|by eapply step_InvOnce].
Qed.

(** Once somebody has returned, the sequence is complete. *)
Lemma returned_complete x i :
  Inv K x ->
  callers x !! i = Some PcReturned ->
  once x = OnceDone
  /\ complete K (connState (st x)) (torrentControls (st x))
              (teardown_trace K x)
  /\ wg x = 0%nat.
Proof.
  intros [_ [_ Honce]] Hi. destruct (once x).
  - destruct Honce as [Hall _]. rewrite Forall_lookup in Hall.
    by specialize (Hall i _ Hi).
  - destruct Honce as (i0 & pc0 & Hpc0 & Hothers & Hprog & _).
    destruct (decide (i = i0)) as [->|Hne].
    + rewrite Hi in Hpc0. injection Hpc0 as <-. done.
    + by specialize (Hothers i _ Hne Hi).
  - by destruct Honce as (_ & ? & ?).
Qed.

Lemma occurrences_app a tr1 tr2 :
  occurrences a (tr1 ++ tr2) = (occurrences a tr1 + occurrences a tr2)%nat.
Proof. unfold occurrences. by rewrite filter_app, length_app. Qed.

Lemma occurrences_cons_eq a tr :
  occurrences a (a :: tr) = S (occurrences a tr).
Proof. unfold occurrences. by rewrite filter_cons_True. Qed.

Lemma occurrences_cons_ne a b tr :
  a ≠ b -> occurrences a (b :: tr) = occurrences a tr.
Proof. intros Hne. unfold occurrences. by rewrite filter_cons_False. Qed.

Lemma occurrences_teardown a x :
  isTeardown a = true ->
  occurrences a (trace (st x)) = occurrences a (teardown_trace K x).
Proof.
  intros Ha. unfold occurrences, teardown_trace.
  rewrite list_filter_filter_l; [done|]. by intros b <-.
Qed.

Lemma occurrences_closeActs a cs :
  (forall c, a ≠ ActConnClose c) -> occurrences a (closeActs cs) = 0%nat.
Proof.
  intros Ha. unfold occurrences, closeActs.
  induction cs as [|c cs IH]; [done|].
  rewrite fmap_cons, filter_cons_False; [done|]. apply Ha.
Qed.

Lemma occurrences_notifyActs_other a chs :
  (forall ch, a ≠ ActChanSend ch ErrSchedulerStopped) ->
  occurrences a (notifyActs chs) = 0%nat.
Proof.
  intros Ha. unfold occurrences, notifyActs.
  induction chs as [|c chs IH]; [done|].
  rewrite fmap_cons, filter_cons_False; [done|]. apply Ha.
Qed.

Lemma occurrences_notifyActs ch chs :
  occurrences (ActChanSend ch ErrSchedulerStopped) (notifyActs chs)
  = length (filter (eq ch) chs).
Proof.
  unfold occurrences, notifyActs.
  induction chs as [|c chs IH]; [done|]. rewrite fmap_cons.
  destruct (decide (ch = c)) as [->|Hne].
  - rewrite !filter_cons_True by done. cbn. by rewrite IH.
  - rewrite !filter_cons_False; [done|done|congruence].
Qed.




Ltac occ_simpl :=
  unfold head4;
  repeat first [ rewrite occurrences_app
               | rewrite occurrences_cons_eq
               | rewrite occurrences_cons_ne by done
               | rewrite occurrences_closeActs by done
               | rewrite occurrences_notifyActs
               | rewrite occurrences_notifyActs_other by done ];
  change (occurrences _ []) with 0%nat.


Lemma occurrences_complete_fixed cs tcs tt a :
  complete K cs tcs tt ->
  a = ActCloseDone \/ a = ActStopComplete ->
  occurrences a tt = 1%nat.
Proof.
  intros (order & Hperm & ->) [-> | ->]; occ_simpl; lia.
Qed.

Lemma occurrences_progress_fixed cs tcs pc tt a :
  progress K cs tcs pc tt ->
  a = ActCloseDone \/ a = ActStopComplete ->
  (occurrences a tt <= 1)%nat.
Proof.
  intros Hprog Ha.
  destruct pc; cbn in Hprog; try done;
    repeat match goal with
      | H : exists _, _ |- _ => destruct H as [? H]
      | H : _ /\ _ |- _ => destruct H as [? H]
      end;
    subst tt; destruct Ha as [-> | ->]; occ_simpl; lia.
Qed.









(** C9. With any number of concurrent callers of [Stop], in every run: at
    most one caller is ever inside the shutdown sequence; its first and
    last statements have run at most once; no call returns before the
    sequence has completed; and once some call has returned, the trace
    holds the sequence exactly once, from first to last statement. *)
Theorem Stop_concurrent_calls_run_teardown_once cs0 l0 n ls x :
  run K ls (New K cs0 l0 n) = Some x ->
  let tr := trace (st x) in
  (forall i j pci pcj,
      callers x !! i = Some pci -> callers x !! j = Some pcj ->
      pci ≠ PcOnceDo -> pci ≠ PcReturned ->
      pcj ≠ PcOnceDo -> pcj ≠ PcReturned ->
      i = j)
  /\ (occurrences ActCloseDone tr <= 1)%nat
  /\ (occurrences ActStopComplete tr <= 1)%nat
  /\ before (eq ActStopComplete) isStopReturn tr
  /\ (forall i,
        callers x !! i = Some PcReturned ->
        complete K (connState (st x)) (torrentControls (st x))
                 (teardown_trace K x)
        /\ occurrences ActCloseDone tr = 1%nat
        /\ occurrences ActStopComplete tr = 1%nat).
Proof.
  intros Hrun tr.
  pose proof (run_Inv _ _ _ Hrun (New_Inv cs0 l0 n)) as HI.
  assert (Hfixed : forall a, a = ActCloseDone \/ a = ActStopComplete ->
                             (occurrences a tr <= 1)%nat).
  { intros a Ha. unfold tr.
    rewrite occurrences_teardown by (by destruct Ha as [-> | ->]).
    destruct HI as [_ [_ Honce]]. destruct (once x).
    - destruct Honce as [_ ->]. cbn. lia.
    - destruct Honce as (i & pc & _ & _ & Hprog & _).
      by eapply occurrences_progress_fixed.
    - destruct Honce as (_ & Hcomp & _).
      by erewrite occurrences_complete_fixed. }
  split; [|split; [|split; [|split]]].
  - intros i j pci pcj Hi Hj Hi1 Hi2 Hj1 Hj2. destruct HI as [_ HO].
    destruct (runner_facts x i pci HO Hi Hi1 Hi2) as (_ & Hothers & _).
    destruct (decide (j = i)) as [->|Hne]; [done|].
    by specialize (Hothers j pcj Hne Hj).
  - apply Hfixed. by left.
  - apply Hfixed. by right.
  - destruct HI as [_ HO]. apply (inv_return K x HO).
  - intros i Hi.
    destruct (returned_complete x i HI Hi) as (Ho & Hcomp & Hwg).
    split; [exact Hcomp|]. unfold tr.
    rewrite !occurrences_teardown by done.
    split; eapply occurrences_complete_fixed; eauto.
Qed.

End ShutdownProperties.

(** * The properties on concrete inputs *)

Lemma admission_failure_closes_and_aborts_witness :
  MovePendingToActive testCollaborators (connState blacklistedState) demoConn
  = (Some (ErrorString "conn is blacklisted"), connState blacklistedState)
  /\ addIncomingConn testCollaborators demoConn demoTorrent blacklistedState
     = Some (Some (ErrorString
                     "cannot add conn to scheduler: conn is blacklisted"),
             mkState testCollaborators ∅ (connState blacklistedState)
                     runningLoop ∅
                     [ActMovePendingToActive demoConn; ActConnClose demoConn])
  /\ addOutgoingConn testCollaborators demoConn demoTorrent blacklistedState
     = Some (Some (ErrorString
                     "cannot add conn to scheduler: conn is blacklisted"),
             mkState testCollaborators ∅ (connState blacklistedState)
                     runningLoop ∅
                     [ActMovePendingToActive demoConn; ActConnClose demoConn]).
Proof.
  split; [reflexivity|].
  apply (admission_failure_closes_and_aborts testCollaborators demoConn
           demoTorrent blacklistedState (ErrorString "conn is blacklisted")
           (connState blacklistedState)).
  reflexivity.
Defined.

Lemma missing_control_created_for_incoming_only_witness :
  MovePendingToActive testCollaborators (connState pendingState) demoConn
  = (None, mkTrackerState [] [demoConn] [])
  /\ torrentControls pendingState !! t_InfoHash demoTorrent = None
  /\ (exists res σ',
        addIncomingConn testCollaborators demoConn demoTorrent pendingState
        = Some (res, σ')
        /\ torrentControls σ'
           = <[7%N := newTorrentControl demoDispatcher]> ∅
        /\ trace σ'
           = [ActMovePendingToActive demoConn; ActDispatcherNew demoTorrent;
              ActSetControl 7%N (newTorrentControl demoDispatcher);
              ActAddConn demoDispatcher demoConn])
  /\ (exists σ',
        addOutgoingConn testCollaborators demoConn demoTorrent pendingState
        = Some (Some (ErrorString
                        "torrent must be created before sending handshake"),
                σ')
        /\ torrentControls σ' = ∅
        /\ trace σ' = [ActMovePendingToActive demoConn]).
Proof.
  split; [reflexivity|]. split; [reflexivity|].
  apply (missing_control_created_for_incoming_only testCollaborators demoConn
           demoTorrent pendingState (mkTrackerState [] [demoConn] []));
    reflexivity.
Defined.

Lemma rejected_after_activation_left_active_witness :
  MovePendingToActive testCollaborators (connState refusedPending) refusedConn
  = (None, mkTrackerState [] [refusedConn] [])
  /\ refusedConn
     ∈ ActiveConns testCollaborators (mkTrackerState [] [refusedConn] [])
  /\ (exists σ',
        addIncomingConn testCollaborators refusedConn demoTorrent
                        refusedPending
        = Some (Some (ErrorString
                        "cannot add conn to dispatcher: conn rejected"), σ')
        /\ left_active testCollaborators refusedConn
                       (mkTrackerState [] [refusedConn] []) refusedPending σ')
  /\ (exists σ',
        addOutgoingConn testCollaborators refusedConn demoTorrent
                        refusedPendingKnown
        = Some (Some (ErrorString
                        "cannot add conn to dispatcher: conn rejected"), σ')
        /\ left_active testCollaborators refusedConn
                       (mkTrackerState [] [refusedConn] [])
                       refusedPendingKnown σ')
  /\ (exists σ',
        addOutgoingConn testCollaborators refusedConn demoTorrent
                        refusedPending
        = Some (Some (ErrorString
                        "torrent must be created before sending handshake"),
                σ')
        /\ left_active testCollaborators refusedConn
                       (mkTrackerState [] [refusedConn] []) refusedPending σ').
Proof.
  assert (Hact : refusedConn
                 ∈ ActiveConns testCollaborators
                     (mkTrackerState [] [refusedConn] [])).
  { apply list_elem_of_singleton. reflexivity. }
  split; [reflexivity|]. split; [exact Hact|].
  destruct (rejected_after_activation_left_active testCollaborators
              refusedConn demoTorrent refusedPending
              (mkTrackerState [] [refusedConn] []) eq_refl Hact)
    as (Hin & _ & Hmissing).
  destruct (rejected_after_activation_left_active testCollaborators
              refusedConn demoTorrent refusedPendingKnown
              (mkTrackerState [] [refusedConn] []) eq_refl Hact)
    as (_ & Hout & _).
  split; [exact (Hin (ErrorString "conn rejected") eq_refl)|].
  split; [exact (Hout (newTorrentControl demoDispatcher)
                      (ErrorString "conn rejected") eq_refl eq_refl)|].
  exact (Hmissing eq_refl).
Defined.

Lemma AddTorrent_never_leaves_caller_waiting_witness :
  GetTorrent testCollaborators "missing" 0%N
  = inr (ErrorString "torrent not found")
  /\ (exists σ',
        AddTorrent testCollaborators (mkMetaInfo "missing" 0%N) stoppedState
        = Some (0%nat, σ')
        /\ chans σ' !! 0%nat
           = Some (mkChan 1 [ErrorString "torrent not found"])
        /\ eventLoop σ' = stoppedLoop)
  /\ GetTorrent testCollaborators "blob" 7%N = inl demoTorrent
  /\ (Send testCollaborators stoppedLoop (newTorrentEvent demoTorrent 0%nat)).1
     = false
  /\ (exists σ',
        AddTorrent testCollaborators (mkMetaInfo "blob" 7%N) stoppedState
        = Some (0%nat, σ')
        /\ chans σ' !! 0%nat = Some (mkChan 1 [ErrSchedulerStopped])).
Proof.
  split; [reflexivity|]. split.
  - destruct (AddTorrent_never_leaves_caller_waiting testCollaborators
                (mkMetaInfo "missing" 0%N) stoppedState)
      as (σ' & Hrun & _ & _ & Hfail & _).
    destruct (Hfail (ErrorString "torrent not found") eq_refl)
      as (Hch & _ & Hloop & _).
    exists σ'. split; [exact Hrun|]. split; [exact Hch|exact Hloop].
  - split; [reflexivity|]. split; [reflexivity|].
    destruct (AddTorrent_never_leaves_caller_waiting testCollaborators
                (mkMetaInfo "blob" 7%N) stoppedState)
      as (σ' & Hrun & _ & _ & _ & Hstop & _).
    destruct (Hstop demoTorrent eq_refl eq_refl) as (Hch & _).
    exists σ'. split; [exact Hrun|exact Hch].
Defined.

Lemma failed_handshake_closed_before_event_witness :
  receiveHandshake testCollaborators 0%nat = inr (ErrorString "EOF")
  /\ (exists σ',
        handshakeIncomingConn testCollaborators 0%nat testState
        = Some (tt, σ')
        /\ eventLoop σ' = eventLoop testState
        /\ trace σ' = [ActReceiveHandshake 0%nat; ActNetClose 0%nat])
  /\ GetTorrent testCollaborators "blob" 0%N
     = inr (ErrorString "torrent not found")
  /\ (exists σ' ok tr,
        initIncomingConn testCollaborators 1%nat (mkHandshake 5%N "blob" 0%N)
                         testState
        = Some (tt, σ')
        /\ trace σ' = tr
        /\ tr = [ActGetTorrent "blob" 0%N; ActNetClose 1%nat;
                 ActSend (failedHandshakeEvent 5%N 0%N) ok]
        /\ closed_before_report 1%nat tr)
  /\ ReciprocateHandshake testCollaborators 2%nat demoTorrent demoHandshake
     = inr (ErrorString "broken pipe")
  /\ (exists σ' ok tr,
        initIncomingConn testCollaborators 2%nat demoHandshake testState
        = Some (tt, σ')
        /\ trace σ' = tr
        /\ tr = [ActGetTorrent "blob" 7%N;
                 ActReciprocateHandshake 2%nat demoTorrent demoHandshake;
                 ActNetClose 2%nat;
                 ActSend (failedHandshakeEvent 5%N 7%N) ok]
        /\ closed_before_report 2%nat tr)
  /\ SendAndReceiveHandshake testCollaborators 3%nat demoTorrent
     = inr (ErrorString "connection reset")
  /\ (exists σ' ok tr,
        initOutgoingConn testCollaborators (testScheduler "ok:80") 5%N "a" 1
                         demoTorrent testState
        = Some (tt, σ')
        /\ trace σ' = tr
        /\ tr = [ActDial "a:1" 5000000000;
                 ActSendAndReceiveHandshake 3%nat demoTorrent;
                 ActNetClose 3%nat;
                 ActSend (failedHandshakeEvent 5%N 7%N) ok]
        /\ closed_before_report 3%nat tr)
  /\ SendAndReceiveHandshake testCollaborators 13%nat demoTorrent
     = inl (mkConn 13%N 7%N 13%nat)
  /\ (exists σ' ok tr,
        initOutgoingConn testCollaborators (testScheduler "ok:80") 5%N
                         "10.0.0.7" 6881 demoTorrent testState
        = Some (tt, σ')
        /\ trace σ' = tr
        /\ tr = [ActDial "10.0.0.7:6881" 5000000000;
                 ActSendAndReceiveHandshake 13%nat demoTorrent;
                 ActConnClose (mkConn 13%N 7%N 13%nat);
                 ActSend (failedHandshakeEvent 5%N 7%N) ok]
        /\ closed_before_report 13%nat tr).
Proof.
  destruct (failed_handshake_closed_before_event testCollaborators
              (testScheduler "ok:80"))
    as (Hrecv & Harchive & Hrecip & Hdial & Hpeer).
  split; [reflexivity|].
  split; [exact (Hrecv 0%nat testState (ErrorString "EOF") eq_refl)|].
  split; [reflexivity|].
  split; [exact (Harchive 1%nat (mkHandshake 5%N "blob" 0%N) testState
                          (ErrorString "torrent not found") eq_refl)|].
  split; [reflexivity|].
  split; [exact (Hrecip 2%nat demoHandshake testState demoTorrent
                        (ErrorString "broken pipe") eq_refl eq_refl)|].
  split; [reflexivity|].
  split; [exact (Hdial 5%N "a" 1 demoTorrent testState 3%nat
                       (ErrorString "connection reset") eq_refl eq_refl)|].
  split; [reflexivity|].
  refine (Hpeer 5%N "10.0.0.7" 6881 demoTorrent testState 13%nat
                (mkConn 13%N 7%N 13%nat) eq_refl eq_refl eq_refl _).
  discriminate.
Defined.

Lemma peer_id_mismatch_closes_and_fails_witness :
  net_DialTimeout testCollaborators "tcp" "10.0.0.7:6881" 5000000000
  = inl 13%nat
  /\ SendAndReceiveHandshake testCollaborators 13%nat demoTorrent
     = inl (mkConn 13%N 7%N 13%nat)
  /\ 13%N ≠ 5%N
  /\ (exists σ',
        doInitOutgoingConn testCollaborators (testScheduler "ok:80") 5%N
                           "10.0.0.7" 6881 demoTorrent testState
        = Some (inr (ErrorString "unexpected peer id from handshaked conn"),
                σ')
        /\ eventLoop σ' = eventLoop testState
        /\ trace σ' = [ActDial "10.0.0.7:6881" 5000000000;
                       ActSendAndReceiveHandshake 13%nat demoTorrent;
                       ActConnClose (mkConn 13%N 7%N 13%nat)])
  /\ (exists σ' ok tr,
        initOutgoingConn testCollaborators (testScheduler "ok:80") 5%N
                         "10.0.0.7" 6881 demoTorrent testState
        = Some (tt, σ')
        /\ trace σ' = tr
        /\ filter (fun a => isSend a = true) tr
           = [ActSend (failedHandshakeEvent 5%N 7%N) ok]
        /\ forall c' t' ok', ActSend (outgoingConnEvent c' t') ok' ∉ tr).
Proof.
  assert (Hne : 13%N ≠ 5%N) by discriminate.
  split; [reflexivity|]. split; [reflexivity|]. split; [exact Hne|].
  exact (peer_id_mismatch_closes_and_fails testCollaborators
           (testScheduler "ok:80") 5%N "10.0.0.7" 6881 demoTorrent testState
           13%nat (mkConn 13%N 7%N 13%nat) eq_refl eq_refl Hne).
Defined.

Lemma doAnnounce_request_and_outcome_witness :
  in_int64 (t_Length demoTorrent - t_BytesDownloaded demoTorrent)
  /\ sub64 (t_Length demoTorrent) (t_BytesDownloaded demoTorrent) = 60
  /\ announceValues testCollaborators (testScheduler "ok:80") demoTorrent
     = list_to_map
         [("info_hash", ["7"]); ("peer_id", ["1"]); ("port", ["6881"]);
          ("ip", ["10.0.0.1"]); ("dc", ["sjc1"]); ("downloaded", ["40"]);
          ("left", ["60"]); ("uploaded", ["0"]); ("event", [""])]
  /\ (exists r σ' tr,
        doAnnounce testCollaborators (testScheduler "ok:80") demoTorrent
                   testState
        = Some (r, σ')
        /\ trace σ' = tr
        /\ filter (fun a => isHttpDo a = true) tr
           = [ActHttpDo (mkClient 3000000000)
                        (announceRequest testCollaborators
                           (testScheduler "ok:80") demoTorrent)]
        /\ r = inl [mkPeerInfo 9%N "10.0.0.2" 6881]).
Proof.
  assert (Hrange : in_int64 (t_Length demoTorrent
                             - t_BytesDownloaded demoTorrent)).
  { unfold in_int64. cbn. lia. }
  destruct (doAnnounce_request_and_outcome testCollaborators
              (testScheduler "ok:80") demoTorrent testState)
    as (_ & Hv & Hleft & r & σ' & tr & Hrun & Htr & Hone & Hok & _).
  split; [exact Hrange|]. split; [exact (Hleft Hrange)|].
  split; [exact Hv|].
  exists r, σ', tr. split; [exact Hrun|]. split; [exact Htr|].
  split; [exact Hone|].
  apply Hok.
  exists (mkResponse 200 "d5:peersle"),
    (mkAnnouncerResponse 30 [mkPeerInfo 9%N "10.0.0.2" 6881]).
  repeat split; reflexivity.
Defined.



Lemma Stop_concurrent_calls_run_teardown_once_witness :
  run testCollaborators demoSchedule demoNew = Some demoFinal
  /\ length (callers demoFinal) = 2%nat
  /\ callers demoFinal !! 1%nat = Some PcReturned
  /\ occurrences ActCloseDone (trace (st demoFinal)) = 1%nat
  /\ occurrences ActStopComplete (trace (st demoFinal)) = 1%nat
  /\ before (eq ActStopComplete) isStopReturn (trace (st demoFinal)).
Proof.
  assert (Hrun : run testCollaborators demoSchedule demoNew = Some demoFinal)
    by (vm_compute; reflexivity).
  destruct (Stop_concurrent_calls_run_teardown_once testCollaborators _ _ _ _
              demoFinal Hrun)
    as (_ & _ & _ & Hbefore & Hreturned).
  destruct (Hreturned 1%nat eq_refl) as (_ & Hfirst & Hlast).
  split; [exact Hrun|]. split; [reflexivity|]. split; [reflexivity|].
  split; [exact Hfirst|]. split; [exact Hlast|exact Hbefore].
Defined.

(** * Further properties of the code *)

(** Filters over explicit traces. *)
Ltac filt :=
  repeat first [ rewrite filter_cons_True by done
               | rewrite filter_cons_False by done ];
  rewrite ?filter_nil; cbn [length].

Section MoreSequentialProperties.

Variable K : Collaborators.
Variable s : Scheduler.

Implicit Types (σ : State K) (c : conn) (t : Torrent) (nc : NetConn).

(** [AddTorrent] adds one channel, under a name that was free, and changes
    nothing else but the event loop (through one [Send] at most) and the
    trace. *)
Lemma AddTorrent_frame (mi : MetaInfo) σ :
  exists σ',
    AddTorrent K mi σ = Some (fresh (dom (chans σ)), σ')
    /\ same_core K σ σ'
    /\ loop_untouched_or_sent K σ σ'
    /\ (exists b, chans σ' = <[fresh (dom (chans σ)) := b]> (chans σ)
                  /\ ch_cap b = 1%nat).
Proof.
  unfold AddTorrent, same_core, loop_untouched_or_sent. msimpl.
  set (errc := fresh (dom (chans σ))).
  destruct (GetTorrent K (mi_Name mi) (mi_InfoHash mi)) as [t | err]; cbn.
  - destruct (Send K (eventLoop σ) (newTorrentEvent t errc)) as [ok l] eqn:HS.
    destruct ok; cbn.
    + eexists. split; [reflexivity|]. cbn. split; [done|].
      split; [right; eexists; by rewrite HS|]. eauto.
    + rewrite lookup_insert_eq. cbn.
      eexists. split; [reflexivity|]. cbn. split; [done|].
      split; [right; eexists; by rewrite HS|].
      rewrite insert_insert_eq. eauto.
  - rewrite lookup_insert_eq. cbn.
    eexists. split; [reflexivity|]. cbn. split; [done|].
    split; [by left|]. rewrite insert_insert_eq. eauto.
Qed.



(** X3. [handshakeIncomingConn] either closes the stream (the handshake
    could not be read) or hands it to the event loop in an
    [incomingHandshakeEvent], never both. When the handshake was read it
    does not close the stream, even if [Send] answers [false]. *)
Theorem handshakeIncomingConn_closes_or_hands_over nc σ :
  exists σ' tr,
    handshakeIncomingConn K nc σ = Some (tt, σ')
    /\ trace σ' = trace σ ++ tr
    /\ (forall h,
          receiveHandshake K nc = inl h ->
          tr = [ActReceiveHandshake nc;
                ActSend (incomingHandshakeEvent nc h)
                        (Send K (eventLoop σ) (incomingHandshakeEvent nc h)).1]
          /\ eventLoop σ'
             = (Send K (eventLoop σ) (incomingHandshakeEvent nc h)).2)
    /\ (forall err,
          receiveHandshake K nc = inr err ->
          tr = [ActReceiveHandshake nc; ActNetClose nc])
    /\ (filter (fun a => isSend a = true) tr = []
        \/ filter (fun a => isClose a = true) tr = []).
Proof.
  unfold handshakeIncomingConn. msimpl.
  destruct (receiveHandshake K nc) as [h | err] eqn:Hrecv; cbn.
  - destruct (Send K _ _) as [ok l] eqn:HS. cbn. norm_trace.
    eexists _, _. split; [reflexivity|]. split; [reflexivity|].
    split; [|split; [discriminate|by right]].
    intros h' [= <-]. by rewrite HS.
  - norm_trace. eexists _, _. split; [reflexivity|]. split; [reflexivity|].
    split; [discriminate|]. split; [|by left]. by intros err' [= <-].
Qed.

(** The two [doInit] functions always return, and leave everything but the
    trace as it was. *)
Lemma doInitOutgoingConn_frame peer ip port t σ :
  exists r tr,
    doInitOutgoingConn K s peer ip port t σ
    = Some (r, mkState K (torrentControls σ) (connState σ) (eventLoop σ)
                       (chans σ) (trace σ ++ tr)).
Proof.
  unfold doInitOutgoingConn. msimpl.
  destruct (net_DialTimeout K _ _ _) as [nc | err]; cbn.
  - destruct (SendAndReceiveHandshake K nc t) as [c | err]; cbn.
    + destruct (decide (c_PeerID c ≠ peer)); cbn; norm_trace;
        eexists _, _; reflexivity.
    + norm_trace. eexists _, _. reflexivity.
  - eexists _, _. reflexivity.
Qed.

Lemma doInitIncomingConn_frame nc (h : handshake) σ :
  exists r tr,
    doInitIncomingConn K nc h σ
    = Some (r, mkState K (torrentControls σ) (connState σ) (eventLoop σ)
                       (chans σ) (trace σ ++ tr)).
Proof.
  unfold doInitIncomingConn. msimpl.
  destruct (GetTorrent K (h_Name h) (h_InfoHash h)) as [t | err]; cbn.
  - destruct (ReciprocateHandshake K nc t h) as [c | err]; cbn;
      norm_trace; eexists _, _; reflexivity.
  - norm_trace. eexists _, _. reflexivity.
Qed.

(** X4. [doInitOutgoingConn] returns a connection only under the expected
    peer id, and then it has closed nothing. When it returns an error, the
    stream it dialled, if any, has been closed exactly once (directly, or
    through the connection wrapping it), and with a failed dial no handshake
    was attempted. It never sends to the event loop. *)
Theorem doInitOutgoingConn_returns_or_closes peer ip port t σ :
  let addr := ip +:+ ":" +:+ FormatInt10 port in
  let dial := net_DialTimeout K "tcp" addr (DialTimeout (config s)) in
  exists r tr,
    doInitOutgoingConn K s peer ip port t σ
    = Some (r, mkState K (torrentControls σ) (connState σ) (eventLoop σ)
                       (chans σ) (trace σ ++ tr))
    /\ filter (fun a => isSend a = true) tr = []
    /\ (forall c,
          r = inl c ->
          c_PeerID c = peer /\ filter (fun a => isClose a = true) tr = [])
    /\ (forall err nc,
          r = inr err -> dial = inl nc ->
          filter (fun a => isClose a = true) tr = [ActNetClose nc]
          \/ exists c, SendAndReceiveHandshake K nc t = inl c
                       /\ filter (fun a => isClose a = true) tr
                          = [ActConnClose c])
    /\ (forall err,
          dial = inr err ->
          r = inr (Errorf "failed to dial peer: " err)
          /\ tr = [ActDial addr (DialTimeout (config s))]).
Proof.
  intros addr dial. unfold doInitOutgoingConn. msimpl. fold addr. fold dial.
  destruct dial as [nc | err] eqn:Hdial; cbn.
  - destruct (SendAndReceiveHandshake K nc t) as [c | err] eqn:Hhs; cbn.
    + destruct (decide (c_PeerID c ≠ peer)) as [Hne | Heq]; cbn.
      * norm_trace. eexists _, _. split; [reflexivity|].
        split; [reflexivity|]. split; [discriminate|].
        split; [|discriminate].
        intros err nc' _ [= <-]. right. exists c. split; [done|]. by filt.
      * apply dec_stable in Heq. norm_trace.
        eexists _, _. split; [reflexivity|].
        split; [reflexivity|]. split; [by intros c' [= <-]|].
        split; discriminate.
    + norm_trace. eexists _, _. split; [reflexivity|].
      split; [reflexivity|]. split; [discriminate|].
      split; [|discriminate]. intros err' nc' _ [= <-]. left. by filt.
  - eexists _, _. split; [reflexivity|]. split; [reflexivity|].
    split; [discriminate|]. split; [discriminate|].
    by intros err' [= <-].
Qed.

(** X5. [doInitIncomingConn] returns a connection without having closed the
    stream, or returns an error after closing the stream exactly once; it
    reciprocates only for a torrent the archive returned, and never sends to
    the event loop. *)
Theorem doInitIncomingConn_returns_or_closes nc (h : handshake) σ :
  exists r tr,
    doInitIncomingConn K nc h σ
    = Some (r, mkState K (torrentControls σ) (connState σ) (eventLoop σ)
                       (chans σ) (trace σ ++ tr))
    /\ filter (fun a => isSend a = true) tr = []
    /\ (forall c t,
          r = inl (c, t) ->
          GetTorrent K (h_Name h) (h_InfoHash h) = inl t
          /\ ReciprocateHandshake K nc t h = inl c
          /\ filter (fun a => isClose a = true) tr = [])
    /\ (forall err,
          r = inr err ->
          filter (fun a => isClose a = true) tr = [ActNetClose nc])
    /\ (forall t a,
          a ∈ tr -> a = ActReciprocateHandshake nc t h ->
          GetTorrent K (h_Name h) (h_InfoHash h) = inl t).
Proof.
  unfold doInitIncomingConn. msimpl.
  destruct (GetTorrent K (h_Name h) (h_InfoHash h)) as [t | err] eqn:Hget;
    cbn.
  - destruct (ReciprocateHandshake K nc t h) as [c | err] eqn:Hrec; cbn;
      norm_trace; (eexists _, _; split; [reflexivity|]);
      (split; [reflexivity|]).
    + split; [by intros c' t' [= <- <-]|]. split; [discriminate|].
      intros t' a Ha ->.
      repeat (apply elem_of_cons in Ha as [Ha | Ha]; [by simplify_eq|]).
      by apply elem_of_nil in Ha.
    + split; [discriminate|]. split; [intros; by filt|].
      intros t' a Ha ->.
      repeat (apply elem_of_cons in Ha as [Ha | Ha]; [by simplify_eq|]).
      by apply elem_of_nil in Ha.
  - norm_trace. eexists _, _. split; [reflexivity|]. split; [reflexivity|].
    split; [discriminate|]. split; [intros; by filt|].
    intros t' a Ha ->.
    repeat (apply elem_of_cons in Ha as [Ha | Ha]; [by simplify_eq|]).
    by apply elem_of_nil in Ha.
Qed.

(** X6. The functions run by goroutines outside the event loop
    ([AddTorrent], [handshakeIncomingConn], [initIncomingConn],
    [initOutgoingConn], [announce]) always return, never change the control
    map or the connection-state tracker, and reach the event loop through at
    most one [Send]; all but [AddTorrent] leave the error channels alone. *)
Theorem producers_leave_scheduler_state σ :
  (forall mi, exists ch σ',
      AddTorrent K mi σ = Some (ch, σ')
      /\ same_core K σ σ' /\ loop_untouched_or_sent K σ σ')
  /\ (forall nc, exists σ',
        handshakeIncomingConn K nc σ = Some (tt, σ')
        /\ same_core K σ σ' /\ loop_untouched_or_sent K σ σ'
        /\ chans σ' = chans σ)
  /\ (forall nc h, exists σ',
        initIncomingConn K nc h σ = Some (tt, σ')
        /\ same_core K σ σ' /\ loop_untouched_or_sent K σ σ'
        /\ chans σ' = chans σ)
  /\ (forall peer ip port t, exists σ',
        initOutgoingConn K s peer ip port t σ = Some (tt, σ')
        /\ same_core K σ σ' /\ loop_untouched_or_sent K σ σ'
        /\ chans σ' = chans σ)
  /\ (forall d, exists σ',
        announce K s d σ = Some (tt, σ')
        /\ same_core K σ σ' /\ loop_untouched_or_sent K σ σ'
        /\ chans σ' = chans σ).
Proof.
  split; [|unfold same_core, loop_untouched_or_sent; repeat split].
  - intros mi.
    destruct (AddTorrent_frame mi σ) as (σ' & Hrun & Hcore & Hloop & _).
    by exists (fresh (dom (chans σ))), σ'.
  - intros nc. unfold handshakeIncomingConn. msimpl.
    destruct (receiveHandshake K nc) as [h | err]; cbn.
    + destruct (Send K (eventLoop σ) (incomingHandshakeEvent nc h))
        as [ok l] eqn:HS. cbn.
      eexists. split; [reflexivity|]. cbn. split; [done|].
      split; [|done]. right. exists (incomingHandshakeEvent nc h).
      by rewrite HS.
    + eexists. split; [reflexivity|]. cbn. eauto.
  - intros nc h.
    destruct (doInitIncomingConn_frame nc h σ) as (r & tr & Hdo).
    unfold initIncomingConn. unfold mbind at 1, M_bind. rewrite Hdo.
    msimpl.
    match goal with
    | |- context [Send K (eventLoop σ) ?e] =>
        destruct (Send K (eventLoop σ) e) as [ok l] eqn:HS
    end. cbn.
    eexists. split; [reflexivity|]. cbn. split; [done|]. split; [|done].
    right. eexists. by rewrite HS.
  - intros peer ip port t.
    destruct (doInitOutgoingConn_frame peer ip port t σ) as (r & tr & Hdo).
    unfold initOutgoingConn. unfold mbind at 1, M_bind. rewrite Hdo.
    msimpl.
    match goal with
    | |- context [Send K (eventLoop σ) ?e] =>
        destruct (Send K (eventLoop σ) e) as [ok l] eqn:HS
    end. cbn.
    eexists. split; [reflexivity|]. cbn. split; [done|]. split; [|done].
    right. eexists. by rewrite HS.
  - intros d.
    destruct (doAnnounce_returns K s (d_Torrent d) σ) as (r & tr & Hdo & _).
    unfold announce. unfold mbind at 1, M_bind. rewrite Hdo.
    msimpl.
    match goal with
    | |- context [Send K (eventLoop σ) ?e] =>
        destruct (Send K (eventLoop σ) e) as [ok l] eqn:HS
    end. cbn.
    eexists. split; [reflexivity|]. cbn. split; [done|]. split; [|done].
    right. eexists. by rewrite HS.
Qed.

(** X7. Both add functions always return, and their first action is the
    call of the tracker. Neither ever changes or removes a control that
    exists:
    [addOutgoingConn] returns the control map as it was, [addIncomingConn]
    changes it at most under the torrent's info hash and only when nothing
    was registered there. Neither touches the event loop or the error
    channels. *)
Theorem adding_a_conn_keeps_existing_controls c t σ :
  (exists r σ' tr,
      addIncomingConn K c t σ = Some (r, σ')
      /\ trace σ' = trace σ ++ ActMovePendingToActive c :: tr
      /\ (forall h ctrl, torrentControls σ !! h = Some ctrl ->
                         torrentControls σ' !! h = Some ctrl)
      /\ (forall h, h ≠ t_InfoHash t ->
                    torrentControls σ' !! h = torrentControls σ !! h)
      /\ eventLoop σ' = eventLoop σ /\ chans σ' = chans σ)
  /\ (exists r σ' tr,
        addOutgoingConn K c t σ = Some (r, σ')
        /\ trace σ' = trace σ ++ ActMovePendingToActive c :: tr
        /\ torrentControls σ' = torrentControls σ
        /\ eventLoop σ' = eventLoop σ /\ chans σ' = chans σ).
Proof.
  split.
  - unfold addIncomingConn. msimpl.
    destruct (MovePendingToActive K (connState σ) c) as [[err|] cs']; cbn.
    + norm_trace. eexists _, _, _. split; [reflexivity|]. cbn. done.
    + destruct (torrentControls σ !! t_InfoHash t) as [ctrl|] eqn:Hctrl; cbn.
      * destruct (AddConn K _ c); cbn; norm_trace;
          (eexists _, _, _; split; [reflexivity|]; cbn; done).
      * destruct (AddConn K _ c); cbn; norm_trace;
          (eexists _, _, _; split; [reflexivity|]; cbn;
           split; [done|]; split;
           [intros h ctrl Hh; rewrite lookup_insert_ne; [done|congruence]
           |split; [intros h Hh; by rewrite lookup_insert_ne|done]]).
  - unfold addOutgoingConn. msimpl.
    destruct (MovePendingToActive K (connState σ) c) as [[err|] cs']; cbn.
    + norm_trace. eexists _, _, _. split; [reflexivity|]. cbn. done.
    + destruct (torrentControls σ !! t_InfoHash t) as [ctrl|]; cbn.
      * destruct (AddConn K _ c); cbn; norm_trace;
          (eexists _, _, _; split; [reflexivity|]; cbn; done).
      * eexists _, _, []. split; [reflexivity|]. cbn. done.
Qed.

(** X8. [addIncomingConn] returns nil exactly when the tracker accepted the
    connection and the dispatcher it was handed to accepted it;
    [addOutgoingConn] returns nil exactly when, in addition, the torrent had
    a control. A connection whose add returned nil was not closed, and was
    handed to a dispatcher exactly once. *)
Theorem adding_a_conn_succeeds_iff c t σ :
  let moved := (MovePendingToActive K (connState σ) c).1 in
  (exists r σ' tr,
      addIncomingConn K c t σ = Some (r, σ')
      /\ trace σ' = trace σ ++ tr
      /\ (r = None <->
          moved = None
          /\ AddConn K (incomingDispatcher K (torrentControls σ) t) c = None)
      /\ (r = None ->
          filter (fun a => isClose a = true) tr = []
          /\ filter (fun a => a = ActAddConn
                                   (incomingDispatcher K (torrentControls σ) t)
                                   c) tr
             = [ActAddConn (incomingDispatcher K (torrentControls σ) t) c]))
  /\ (exists r σ' tr,
        addOutgoingConn K c t σ = Some (r, σ')
        /\ trace σ' = trace σ ++ tr
        /\ (r = None <->
            moved = None
            /\ exists ctrl, torrentControls σ !! t_InfoHash t = Some ctrl
                            /\ AddConn K (tc_Dispatcher ctrl) c = None)
        /\ (r = None -> filter (fun a => isClose a = true) tr = [])).
Proof.
  intros moved. subst moved. split.
  - unfold addIncomingConn, incomingDispatcher. msimpl.
    destruct (MovePendingToActive K (connState σ) c) as [[err|] cs']; cbn.
    + norm_trace. eexists _, _, _. split; [reflexivity|].
      split; [reflexivity|]. split; [|done]. split; [done|by intros [? _]].
    + destruct (torrentControls σ !! t_InfoHash t) as [ctrl|] eqn:Hctrl; cbn;
        destruct (AddConn K _ c) eqn:Hadd; cbn; norm_trace;
        (eexists _, _, _; split; [reflexivity|]; split; [reflexivity|]);
        (split; [split; [done|by intros [_ ?]] | try done]);
        intros _; split; filt; done.
  - unfold addOutgoingConn. msimpl.
    destruct (MovePendingToActive K (connState σ) c) as [[err|] cs']; cbn.
    + norm_trace. eexists _, _, _. split; [reflexivity|].
      split; [reflexivity|]. split; [|done]. split; [done|by intros [? _]].
    + destruct (torrentControls σ !! t_InfoHash t) as [ctrl|] eqn:Hctrl; cbn.
      * destruct (AddConn K _ c) eqn:Hadd; cbn; norm_trace;
          (eexists _, _, _; split; [reflexivity|]; split; [reflexivity|]).
        -- split; [|done]. split; [done|].
           intros (_ & ctrl' & [= <-] & Hadd'). congruence.
        -- split; [|intros _; by filt]. split; [eauto|done].
      * eexists _, _, _. split; [reflexivity|]. split; [reflexivity|].
        split; [|done]. split; [done|]. by intros (_ & ctrl' & [=] & _).
Qed.

(** X9. For a torrent that already has a control, [addIncomingConn] and
    [addOutgoingConn] are the same function. *)
Theorem add_functions_agree_on_known_torrent c t σ ctrl :
  torrentControls σ !! t_InfoHash t = Some ctrl ->
  addIncomingConn K c t σ = addOutgoingConn K c t σ.
Proof.
  intros Hctrl. unfold addIncomingConn, addOutgoingConn. msimpl.
  destruct (MovePendingToActive K (connState σ) c) as [[err|] cs']; cbn;
    [done|]. by rewrite Hctrl.
Qed.

(** X10. Once [addIncomingConn] has got a connection past the tracker, the
    torrent has a control, whatever the dispatcher answered; so a later
    [addOutgoingConn] for that torrent, when the tracker accepts its
    connection, hands it to that control's dispatcher instead of failing on
    a missing control. *)
Theorem incoming_add_makes_torrent_known c1 c2 t σ r1 σ1 cs2 :
  addIncomingConn K c1 t σ = Some (r1, σ1) ->
  (MovePendingToActive K (connState σ) c1).1 = None ->
  MovePendingToActive K (connState σ1) c2 = (None, cs2) ->
  exists ctrl r2 σ2,
    torrentControls σ1 !! t_InfoHash t = Some ctrl
    /\ tc_Dispatcher ctrl = incomingDispatcher K (torrentControls σ) t
    /\ addOutgoingConn K c2 t σ1 = Some (r2, σ2)
    /\ trace σ2 = trace σ1 ++ [ActMovePendingToActive c2;
                                ActAddConn (tc_Dispatcher ctrl) c2]
    /\ r2 = Errorf "cannot add conn to dispatcher: "
             <$> AddConn K (tc_Dispatcher ctrl) c2.
Proof.
  intros Hin Hmove1 Hmove2.
  assert (Hknown : exists ctrl,
             torrentControls σ1 !! t_InfoHash t = Some ctrl
             /\ connState σ1 = (MovePendingToActive K (connState σ) c1).2
             /\ tc_Dispatcher ctrl
                = incomingDispatcher K (torrentControls σ) t).
  { revert Hin. unfold addIncomingConn, incomingDispatcher. msimpl.
    destruct (MovePendingToActive K (connState σ) c1) as [[err|] cs'];
      [done|]. cbn.
    destruct (torrentControls σ !! t_InfoHash t) as [ctrl|] eqn:Hctrl; cbn;
      destruct (AddConn K _ c1); cbn; intros [= <- <-]; cbn;
      rewrite ?lookup_insert_eq; eauto. }
  destruct Hknown as (ctrl & Hctrl & _ & Hd).
  exists ctrl. unfold addOutgoingConn. msimpl. rewrite Hmove2. cbn.
  rewrite Hctrl. cbn.
  destruct (AddConn K (tc_Dispatcher ctrl) c2); cbn; norm_trace;
    eexists _, _; done.
Qed.

(** X11. The channel [AddTorrent] returns was not in use before the call;
    every channel that was keeps its capacity and its content. Hence two
    calls in a row return two different channels, and the second call
    leaves what the first delivered in place. *)
Theorem AddTorrent_channels_are_distinct (mi1 mi2 : MetaInfo) σ :
  exists ch1 σ1 ch2 σ2,
    AddTorrent K mi1 σ = Some (ch1, σ1)
    /\ AddTorrent K mi2 σ1 = Some (ch2, σ2)
    /\ ch1 ≠ ch2
    /\ chans σ !! ch1 = None
    /\ chans σ1 !! ch2 = None
    /\ chans σ2 !! ch1 = chans σ1 !! ch1
    /\ (forall ch b, chans σ !! ch = Some b -> chans σ2 !! ch = Some b).
Proof.
  destruct (AddTorrent_frame mi1 σ) as (σ1 & Hrun1 & _ & _ & b1 & Hch1 & _).
  destruct (AddTorrent_frame mi2 σ1) as (σ2 & Hrun2 & _ & _ & b2 & Hch2 & _).
  set (ch1 := fresh (dom (chans σ))) in *.
  set (ch2 := fresh (dom (chans σ1))) in *.
  assert (Hfree1 : chans σ !! ch1 = None) by apply fresh_chan_unused.
  assert (Hfree2 : chans σ1 !! ch2 = None) by apply fresh_chan_unused.
  assert (Hne : ch1 ≠ ch2).
  { intros Heq. rewrite <- Heq, Hch1, lookup_insert_eq in Hfree2. done. }
  exists ch1, σ1, ch2, σ2. split; [done|]. split; [done|].
  split; [done|]. split; [done|]. split; [done|]. split.
  - rewrite Hch2. by rewrite lookup_insert_ne.
  - intros ch b Hb.
    assert (ch ≠ ch1) by (intros ->; congruence).
    assert (ch ≠ ch2).
    { intros ->. rewrite Hch1, lookup_insert_ne in Hfree2 by done.
      congruence. }
    rewrite Hch2, lookup_insert_ne, Hch1, lookup_insert_ne by done. done.
Qed.

(** X12. [doAnnounce] closes the response body exactly once, as its last
    action, whenever the request returned a response, and never otherwise.
    The body is decoded only under status 200 and read in full only under
    another status, in which case the error carries the status and the
    body. *)
Theorem doAnnounce_closes_body_once t σ :
  let cli := mkClient (AnnounceTimeout (config s)) in
  let req := announceRequest K s t in
  exists r σ' tr,
    doAnnounce K s t σ = Some (r, σ')
    /\ trace σ' = trace σ ++ ActHttpDo cli req :: tr
    /\ (forall err, http_Do K cli req = inr err ->
                    tr = [] /\ r = inr (Errorf "request failed: " err))
    /\ (forall resp,
          http_Do K cli req = inl resp ->
          filter (fun a => isBodyClose a = true) tr = [ActBodyClose]
          /\ last tr = Some ActBodyClose
          /\ (resp_StatusCode resp = StatusOK ->
              tr = [ActUnmarshal; ActBodyClose])
          /\ (resp_StatusCode resp ≠ StatusOK ->
              tr = [ActReadAll; ActBodyClose]
              /\ r = inr (ErrorString
                            ("request not ok: "
                             +:+ FormatInt10 (resp_StatusCode resp)
                             +:+ " - " +:+ resp_Body resp)))).
Proof.
  intros cli req. unfold doAnnounce. msimpl. fold req. fold cli.
  destruct (http_Do K cli req) as [resp | err] eqn:Hdo; cbn.
  - destruct (decide (resp_StatusCode resp ≠ StatusOK)) as [Hne | Heq]; cbn.
    + norm_trace. eexists _, _, _. split; [reflexivity|].
      split; [reflexivity|]. split; [discriminate|].
      intros resp' [= <-]. done.
    + apply dec_stable in Heq.
      destruct (bencode_Unmarshal K (resp_Body resp)); cbn; norm_trace;
        (eexists _, _, _; split; [reflexivity|]; split; [reflexivity|];
         split; [discriminate|]; intros resp' [= <-]; done).
  - eexists _, _, []. split; [reflexivity|]. split; [reflexivity|].
    split; [|discriminate]. by intros err' [= <-].
Qed.

End MoreSequentialProperties.

(** ** The [left] parameter *)

Lemma wrap64_range z : in_int64 (wrap64 z).
Proof.
  unfold in_int64, wrap64.
  pose proof (Z.mod_pos_bound (z + 2 ^ 63) (2 ^ 64)). lia.
Qed.

Lemma wrap64_mod z : wrap64 z mod 2 ^ 64 = z mod 2 ^ 64.
Proof.
  unfold wrap64.
  rewrite <- Zminus_mod_idemp_l, Z.mod_mod by lia.
  rewrite Zminus_mod_idemp_l. f_equal. lia.
Qed.

Lemma FormatInt10_neg z :
  0 < z -> FormatInt10 (- z) = "-" +:+ FormatInt10 z.
Proof. destruct z; try lia. intros _. reflexivity. Qed.

(** X13. The [left] parameter is the decimal form of an int64 that
    always differs from length minus downloaded by a multiple of 2^64. It
    is not clamped: when more bytes are reported downloaded than the torrent
    is long, [left] is sent as a negative number. *)
Theorem announce_left_is_not_clamped (K : Collaborators) (s : Scheduler)
  (t : Torrent) :
  let left := sub64 (t_Length t) (t_BytesDownloaded t) in
  announceValues K s t !! "left" = Some [FormatInt10 left]
  /\ in_int64 left
  /\ left mod 2 ^ 64 = (t_Length t - t_BytesDownloaded t) mod 2 ^ 64
  /\ (t_Length t < t_BytesDownloaded t ->
      in_int64 (t_Length t - t_BytesDownloaded t) ->
      FormatInt10 left
      = "-" +:+ FormatInt10 (t_BytesDownloaded t - t_Length t)).
Proof.
  intros left. split.
  - rewrite announceValues_eq. reflexivity.
  - split; [apply wrap64_range|]. split; [apply wrap64_mod|].
    intros Hlt Hrange. unfold left, sub64. rewrite wrap64_in_range by done.
    replace (t_Length t - t_BytesDownloaded t)
      with (- (t_BytesDownloaded t - t_Length t)) by lia.
    apply FormatInt10_neg. lia.
Qed.

(** ** More on shutdown *)

(** Case analysis on one step: one goal per statement that can run. *)
Ltac cases_of_step Hstep :=
  match type of Hstep with
  | step _ ?l _ = _ => destruct l; cbn in Hstep
  end;
  repeat match type of Hstep with
    | context [callers ?x !! ?i] =>
        let Hpc := fresh "Hpc" in
        destruct (callers x !! i) as [[]|] eqn:Hpc; cbn in Hstep
    end;
  unfold do_send in Hstep;
  repeat (match type of Hstep with
          | context [decide ?P] => destruct (decide P)
          | context [EventLoop_next ?K ?l] =>
              destruct (EventLoop_next K l) as [[? ?]|] eqn:?
          | context [Send ?K ?l ?e] => destruct (Send K l e) as [? ?] eqn:?
          | context [chan_recv ?c] => destruct (chan_recv c) as [[? ?]|] eqn:?
          | context [chan_send ?c ?e] => destruct (chan_send c e) eqn:?
          | context [chans ?s !! ?c] => destruct (chans s !! c) eqn:?
          | context [may_leave ?K ?g ?x] => destruct (may_leave K g x) eqn:?
          | context [match ?t with _ => _ end] => destruct t eqn:?
          end; cbn in Hstep);
  try discriminate Hstep;
  try (injection Hstep as <-);
  try match goal with
      | H : _ = PcRangeControls /\ _ |- _ =>
          let H1 := fresh in
          destruct H as [H1 ?]; try discriminate H1; clear H1
      end.

Section MoreShutdownProperties.

Variable K : Collaborators.

Implicit Types (x : Sched K).

Lemma step_InvDone l x x' :
  step K l x = Some x' -> InvOnce K x -> InvDone K x -> InvDone K x'.
Proof.
  intros Hstep HO [Hidle Hpcs Htr Htick Hbef].
  cases_of_step Hstep.
  all: try (destruct (runner_facts K x i _ HO Hpc) as (Ho & Hothers & _);
            [done|done|]).
  all: split;
    [ cbn; first [ discriminate | exact Hidle | intros; congruence | idtac ]
    | intros j; cbn; try exact (Hpcs j);
      try (destruct (decide (j = i)) as [->|Hne];
           [ rewrite list_lookup_insert_eq by (by eapply lookup_lt_Some);
             try discriminate
           | rewrite list_lookup_insert_ne by done;
             first [ exact (Hpcs j)
                   | intros Hj; by specialize (Hothers j _ Hne Hj) ] ])
    | cbn; intros Hd;
      first [ exact (Htr Hd)
            | apply elem_of_app; left; exact (Htr Hd)
            | apply elem_of_app; right; by apply list_elem_of_singleton
            | apply elem_of_app; left; apply elem_of_app; left; exact (Htr Hd) ]
    | rewrite ?loops_log, ?loops_set_wg; try exact Htick; try (cbn; done)
    | cbn;
      first [ exact Hbef
            | apply before_snoc_other; [exact Hbef | by intros [=]]
            | apply before_snoc_other;
              [apply before_snoc_other; [exact Hbef | by intros [=]]
              | by intros [=]]
            | idtac ] ].
  - intros _. by apply Hidle.
  - rewrite loops_set_loop. case_decide as Hg; [|exact Htick].
    subst g. intros _. exact Heqb.
  - rewrite loops_set_loop, loops_set_wg. case_decide as Hg; [|exact Htick].
    subst g. intros _. cbn. apply Htick. by left.
  - apply before_snoc; [done|]. intros [= <-].
    exists ActCloseDone. split; [|done]. apply Htr, Htick. by left.
Qed.

Lemma New_InvDone cs l n : InvDone K (New K cs l n).
Proof.
  split; cbn.
  - done.
  - done.
  - done.
  - by intros [|].
  - apply before_nil.
Qed.

Lemma run_InvDone ls x x' :
  run K ls x = Some x' -> Inv K x -> InvDone K x -> InvDone K x'.
Proof.
  revert x. induction ls as [|l ls IH]; intros x Hrun HI HD; cbn in Hrun.
  - by injection Hrun as <-.
  - destruct (step K l x) as [x1|] eqn:Hstep; [|done]. cbn in Hrun.
    apply (IH x1 Hrun).
    + destruct HI as [HL HO].
      split; [by eapply step_InvLoops|by eapply step_InvOnce].
    + destruct HI as [_ HO]. by eapply step_InvDone.
Qed.

(** X14. [tickerLoop] leaves only through [<-s.done]: in every run, whenever
    the ticker loop has left its loop, [s.done] has been closed, and its
    [wg.Done()] comes after [close(s.done)] in the trace. So the wait group
    cannot reach zero, and no call of [Stop] can return, without the close
    of [s.done]. *)
Theorem tickerLoop_exits_only_after_done_closed cs0 l0 n ls x :
  run K ls (New K cs0 l0 n) = Some x ->
  (loops x TickerLoopG = Finished \/ loops x TickerLoopG = Exited ->
   done_closed x = true /\ ActCloseDone ∈ trace (st x))
  /\ before (eq ActCloseDone) (eq (ActWgDone TickerLoopG)) (trace (st x))
  /\ (wg x = 0%nat -> done_closed x = true)
  /\ (forall i, callers x !! i = Some PcReturned -> done_closed x = true).
Proof.
  intros Hrun.
  pose proof (run_Inv K _ _ _ Hrun (New_Inv K cs0 l0 n)) as HI.
  pose proof (run_InvDone _ _ _ Hrun (New_Inv K cs0 l0 n)
                (New_InvDone cs0 l0 n)) as HD.
  destruct HD as [_ _ Htr Htick Hbef].
  assert (Hzero : wg x = 0%nat -> done_closed x = true).
  { intros Hwg. apply Htick. right. destruct HI as [HL _].
    by apply all_exited. }
  split; [intros Ht; split; [by apply Htick|by apply Htr, Htick]|].
  split; [exact Hbef|]. split; [exact Hzero|].
  intros i Hi. apply Hzero.
  by destruct (returned_complete K x i HI Hi) as (_ & _ & ?).
Qed.

(** X15. Nothing in the shutdown panics: in every run, the caller about to
    run [close(s.done)] finds the channel open, and a loop goroutine about
    to call [s.wg.Done()] finds the counter positive; the counter is the
    number of loops still to call [Done], never more than the three that
    [start] added. *)
Theorem shutdown_never_panics cs0 l0 n ls x :
  run K ls (New K cs0 l0 n) = Some x ->
  (forall i, callers x !! i = Some PcCloseDone ->
             done_closed x = false /\ is_Some (step K (LStop K i) x))
  /\ (forall g, loops x g = Finished ->
                (0 < wg x)%nat /\ is_Some (step K (LDone K g) x))
  /\ (wg x <= 3)%nat
  /\ wg x = (alive (loops x EventLoopG) + alive (loops x ListenLoopG)
             + alive (loops x TickerLoopG))%nat.
Proof.
  intros Hrun.
  pose proof (run_Inv K _ _ _ Hrun (New_Inv K cs0 l0 n)) as HI.
  pose proof (run_InvDone _ _ _ Hrun (New_Inv K cs0 l0 n)
                (New_InvDone cs0 l0 n)) as HD.
  destruct HI as [[Hwg _ _ _] _].
  split; [|split; [|split; [|exact Hwg]]].
  - intros i Hi. pose proof (inv_done_pc K x HD i Hi) as Hopen.
    split; [done|]. cbn. rewrite Hi. cbn. rewrite Hopen. eauto.
  - intros g Hg.
    assert (0 < wg x)%nat as Hpos.
    { rewrite Hwg. destruct g; rewrite Hg; cbn; lia. }
    split; [done|]. cbn. rewrite decide_True by done.
    destruct (wg x); [lia|eauto].
  - rewrite Hwg.
    destruct (loops x EventLoopG), (loops x ListenLoopG),
      (loops x TickerLoopG); cbn; lia.
Qed.

(** While the caller inside [Do] cannot move, nobody in [Stop] can. *)
Lemma runner_blocked_all_blocked x i pc :
  InvOnce K x ->
  callers x !! i = Some pc ->
  pc ≠ PcOnceDo -> pc ≠ PcReturned -> pc ≠ PcRangeControls ->
  stop_step K i pc x = None ->
  stop_blocked K x.
Proof.
  intros HO Hi Hne1 Hne2 Hne3 Hblocked.
  destruct (runner_facts K x i pc HO Hi Hne1 Hne2) as (Ho & Hothers & _).
  split.
  - intros j. cbn. destruct (callers x !! j) as [pcj|] eqn:Hj; [|done]. cbn.
    destruct (decide (j = i)) as [->|Hne].
    + rewrite Hi in Hj. by injection Hj as <-.
    + rewrite (Hothers j pcj Hne Hj). cbn. by rewrite Ho.
  - intros j order. cbn.
    destruct (callers x !! j) as [pcj|] eqn:Hj; [|done]. cbn.
    rewrite decide_False; [done|]. intros [Heq _]. subst pcj.
    destruct (decide (j = i)) as [->|Hne].
    + congruence.
    + by specialize (Hothers j _ Hne Hj).
Qed.

(** X16. [Stop] blocks all its callers together. In every run, while the
    caller running the sequence waits in [s.wg.Wait()] for a loop that has
    not called [Done], or waits to send on an error channel that is nil or
    whose buffer is full, no goroutine inside [Stop] can take a step. A full
    buffer of one slot is freed by one receive, after which the send goes
    through. *)
Theorem Stop_blocks_all_callers cs0 l0 n ls x i :
  run K ls (New K cs0 l0 n) = Some x ->
  (callers x !! i = Some PcWgWait ->
   (exists g, loops x g = Running \/ loops x g = Finished) ->
   stop_blocked K x)
  /\ (forall errc todo,
        callers x !! i = Some (PcNotify (errc :: todo)) ->
        chans (st x) !! errc = None
        \/ (exists b, chans (st x) !! errc = Some b
                      /\ (ch_cap b <= length (ch_buf b))%nat) ->
        stop_blocked K x)
  /\ (forall errc todo e,
        callers x !! i = Some (PcNotify (errc :: todo)) ->
        chans (st x) !! errc = Some (mkChan 1 [e]) ->
        exists x1 x2,
          step K (LRecv K errc) x = Some x1
          /\ step K (LStop K i) x1 = Some x2
          /\ callers x2 !! i = Some (PcNotify todo)
          /\ chans (st x2) !! errc = Some (mkChan 1 [ErrSchedulerStopped])).
Proof.
  intros Hrun.
  pose proof (run_Inv K _ _ _ Hrun (New_Inv K cs0 l0 n)) as [HL HO].
  split; [|split].
  - intros Hi (g & Hg).
    apply (runner_blocked_all_blocked x i PcWgWait); try done.
    cbn. rewrite decide_False; [done|].
    rewrite (inv_wg K x HL).
    destruct g; destruct Hg as [-> | ->]; cbn; lia.
  - intros errc todo Hi Hch.
    apply (runner_blocked_all_blocked x i (PcNotify (errc :: todo)));
      try done.
    cbn. destruct Hch as [-> | (b & -> & Hfull)]; [done|]. cbn.
    unfold chan_send. rewrite decide_False by lia. done.
  - intros errc todo e Hi Hch.
    assert (Hlt : (i < length (callers x))%nat) by by eapply lookup_lt_Some.
    eexists _, _. split.
    { cbn. rewrite Hch. cbn. reflexivity. }
    split.
    { cbn. rewrite Hi. cbn. rewrite lookup_insert_eq. cbn. reflexivity. }
    split.
    { cbn. by rewrite list_lookup_insert_eq. }
    cbn. by rewrite lookup_insert_eq.
Qed.

(** After [s.wg.Wait()] has returned the counter is zero. *)
Lemma waited_wg_zero x : Inv K x -> ActWgWait ∈ trace (st x) -> wg x = 0%nat.
Proof.
  intros [_ [_ Honce]] Hin.
  assert (Htt : ActWgWait ∈ teardown_trace K x).
  { unfold teardown_trace. by apply list_elem_of_filter. }
  destruct (once x).
  - destruct Honce as [_ Hnil]. rewrite Hnil in Htt.
    by apply elem_of_nil in Htt.
  - destruct Honce as (i & pc & _ & _ & Hprog & Hwait).
    destruct (past_wait pc) eqn:Hpast; [by apply Hwait|].
    destruct pc; try done; cbn in Hprog; rewrite Hprog in Htt;
      repeat (apply elem_of_cons in Htt as [Htt | Htt]; [done|]);
      by apply elem_of_nil in Htt.
  - by destruct Honce as (_ & _ & ?).
Qed.

(** With the counter at zero, a step changes neither the controls nor the
    tracker, and is not a handler's. *)
Lemma step_frozen l x x' :
  InvLoops K x -> wg x = 0%nat -> step K l x = Some x' ->
  wg x' = 0%nat
  /\ torrentControls (st x') = torrentControls (st x)
  /\ connState (st x') = connState (st x)
  /\ exists tr, trace (st x') = trace (st x) ++ tr
               /\ filter (fun a => isHandle a = true) tr = [].
Proof.
  intros HL Hwg Hstep.
  pose proof (all_exited K x HL Hwg) as Hall.
  cases_of_step Hstep; cbn;
    try (split; [done|]; split; [done|]; split; [done|];
         first [ by exists []; rewrite app_nil_r
               | by eexists [_]
               | by (rewrite <- app_assoc; eexists [_; _]) ]).
  specialize (Hall EventLoopG). unfold loops in *. cbn in *. congruence.
Qed.

(** X17. Once [s.wg.Wait()] has returned, the scheduler's state is frozen:
    however the run goes on, the control map and the tracker stay as they
    are, no event handler runs any more, and the three loops stay exited.
    So what [Stop] closes and notifies afterwards is what the scheduler
    holds. *)
Theorem state_frozen_after_wait cs0 l0 n ls x ls' x' :
  run K ls (New K cs0 l0 n) = Some x ->
  ActWgWait ∈ trace (st x) ->
  run K ls' x = Some x' ->
  torrentControls (st x') = torrentControls (st x)
  /\ connState (st x') = connState (st x)
  /\ (forall g, loops x' g = Exited)
  /\ exists tr, trace (st x') = trace (st x) ++ tr
               /\ filter (fun a => isHandle a = true) tr = [].
Proof.
  intros Hrun Hwait Hrun'.
  pose proof (run_Inv K _ _ _ Hrun (New_Inv K cs0 l0 n)) as HI.
  pose proof (waited_wg_zero x HI Hwait) as Hwg.
  destruct HI as [HL _]. clear Hrun Hwait.
  revert x HL Hwg Hrun'.
  induction ls' as [|l ls' IH]; intros x HL Hwg Hrun'; cbn in Hrun'.
  - injection Hrun' as <-. split; [done|]. split; [done|].
    split; [by apply all_exited|]. exists []. by rewrite app_nil_r.
  - destruct (step K l x) as [x1|] eqn:Hstep; [|done]. cbn in Hrun'.
    destruct (step_frozen l x x1 HL Hwg Hstep)
      as (Hwg1 & Htcs & Hcs & tr1 & Htr1 & Hh1).
    destruct (IH x1 (step_InvLoops K l x x1 Hstep HL) Hwg1 Hrun')
      as (Htcs' & Hcs' & Hex & tr2 & Htr2 & Hh2).
    split; [congruence|]. split; [congruence|]. split; [done|].
    exists (tr1 ++ tr2). split.
    + by rewrite Htr2, Htr1, app_assoc.
    + by rewrite filter_app, Hh1, Hh2.
Qed.

(** *** The listener *)





(** *** A schedule on which [Stop] returns *)

Lemma run_app ls1 ls2 x :
  run K (ls1 ++ ls2) x = run K ls1 x ≫= run K ls2.
Proof.
  revert x. induction ls1 as [|l ls1 IH]; intros x; cbn; [done|].
  destruct (step K l x); cbn; [apply IH|done].
Qed.

Lemma after_id x pc :
  callers x !! 0%nat = Some pc -> after K x pc (chans (st x)) [] = x.
Proof.
  intros Hpc. destruct x as [[tcs cs el chs tr] dc lc w o gs cl].
  unfold after. cbn in *. rewrite app_nil_r, list_insert_id by done. done.
Qed.

(** The loop over the active connections closes them one by one. *)
Lemma run_close_conns todo x :
  callers x !! 0%nat = Some (PcCloseConn todo) ->
  run K (replicate (length todo) (LStop K 0)) x
  = Some (after K x (PcCloseConn []) (chans (st x)) (closeActs todo)).
Proof.
  revert x. induction todo as [|c todo IH]; intros x Hpc; cbn.
  - by rewrite after_id.
  - rewrite Hpc. cbn. rewrite IH.
    + f_equal. unfold after. cbn. rewrite list_insert_insert_eq.
      by rewrite <- app_assoc.
    + cbn. apply list_lookup_insert_eq. by eapply lookup_lt_Some.
Qed.

(** The loop over the pending channels sends on them one by one, given
    that they are distinct and have room. *)
Lemma run_notify todo x :
  callers x !! 0%nat = Some (PcNotify todo) ->
  NoDup todo ->
  (forall ch, ch ∈ todo ->
              exists b, chans (st x) !! ch = Some b
                        /\ (length (ch_buf b) < ch_cap b)%nat) ->
  exists chs,
    run K (replicate (length todo) (LStop K 0)) x
    = Some (after K x (PcNotify []) chs (notifyActs todo)).
Proof.
  revert x. induction todo as [|ch todo IH]; intros x Hpc Hnd Hroom; cbn.
  - exists (chans (st x)). by rewrite after_id.
  - apply NoDup_cons in Hnd as [Hnin Hnd].
    destruct (Hroom ch) as (b & Hb & Hlt); [by left|].
    rewrite Hpc. cbn. rewrite Hb. cbn. unfold chan_send.
    rewrite decide_True by done. cbn.
    match goal with
    | |- context [run K _ ?y] => destruct (IH y) as (chs & Hrun)
    end.
    + cbn. apply list_lookup_insert_eq. by eapply lookup_lt_Some.
    + done.
    + intros ch' Hch'. cbn. rewrite lookup_insert_ne by (intros <-; done).
      apply Hroom. by right.
    + exists chs. rewrite Hrun. f_equal. unfold after. cbn.
      rewrite list_insert_insert_eq. by rewrite <- app_assoc.
Qed.

(** Once the sequence is complete, the callers still at [s.once.Do] return
    one after the other. *)
Lemma run_return_rest rest pre x :
  callers x = pre ++ rest ->
  Forall (eq PcOnceDo) rest ->
  once x = OnceDone ->
  exists x',
    run K (LStop K <$> seq (length pre) (length rest)) x = Some x'
    /\ callers x' = pre ++ replicate (length rest) PcReturned
    /\ goroutines x' = goroutines x.
Proof.
  revert pre x. induction rest as [|pc rest IH]; intros pre x Hc Hall Ho.
  - exists x. cbn. by rewrite Hc.
  - apply Forall_cons in Hall as [<- Hall]. cbn.
    rewrite Hc, lookup_app_r, Nat.sub_diag by done. cbn. rewrite Ho.
    match goal with
    | |- context [Some ?y ≫= _] =>
        destruct (IH (pre ++ [PcReturned]) y) as (x' & Hrun & Hc' & Hg)
    end.
    + cbn. rewrite Hc.
      replace (length pre) with (length pre + 0)%nat at 1 by lia.
      rewrite insert_app_r. cbn. by rewrite <- app_assoc.
    + done.
    + done.
    + exists x'. rewrite length_app in Hrun. cbn [length] in Hrun.
      rewrite Nat.add_1_r in Hrun. cbn [mbind option_bind]. rewrite Hrun.
      split; [done|]. split; [|exact Hg].
      rewrite Hc'. by rewrite <- app_assoc.
Qed.

Lemma run_callers_length ls x x' :
  run K ls x = Some x' -> length (callers x') = length (callers x).
Proof.
  revert x. induction ls as [|l ls IH]; intros x Hrun; cbn in Hrun.
  - by injection Hrun as <-.
  - destruct (step K l x) as [x1|] eqn:Hstep; [|done]. cbn in Hrun.
    rewrite (IH x1 Hrun). clear IH Hrun.
    cases_of_step Hstep.
    all: cbn; by rewrite ?length_insert.
Qed.

End MoreShutdownProperties.

(** ** [Stop] can return *)

Section Setters.

Variable K : Collaborators.

Lemma set_pc_mk i pc σ d l w o g c :
  set_pc K i pc (mkSched K σ d l w o g c)
  = mkSched K σ d l w o g (<[i := pc]> c).
Proof. reflexivity. Qed.

Lemma log_mk a tcs cs el chs tr d l w o g c :
  log K a (mkSched K (mkState K tcs cs el chs tr) d l w o g c)
  = mkSched K (mkState K tcs cs el chs (tr ++ [a])) d l w o g c.
Proof. reflexivity. Qed.

Lemma upd_st_mk f σ d l w o g c :
  upd_st K f (mkSched K σ d l w o g c) = mkSched K (f σ) d l w o g c.
Proof. reflexivity. Qed.

Lemma st_set_eventLoop_mk el' tcs cs el chs tr :
  st_set_eventLoop K el' (mkState K tcs cs el chs tr)
  = mkState K tcs cs el' chs tr.
Proof. reflexivity. Qed.

Lemma st_set_chans_mk chs' tcs cs el chs tr :
  st_set_chans K chs' (mkState K tcs cs el chs tr)
  = mkState K tcs cs el chs' tr.
Proof. reflexivity. Qed.

Lemma set_once_mk o' σ d l w o g c :
  set_once K o' (mkSched K σ d l w o g c) = mkSched K σ d l w o' g c.
Proof. reflexivity. Qed.

Lemma set_done_closed_mk σ d l w o g c :
  set_done_closed K (mkSched K σ d l w o g c) = mkSched K σ true l w o g c.
Proof. reflexivity. Qed.

Lemma set_listener_closed_mk σ d l w o g c :
  set_listener_closed K (mkSched K σ d l w o g c)
  = mkSched K σ d true w o g c.
Proof. reflexivity. Qed.

Lemma set_wg_mk n σ d l w o g c :
  set_wg K n (mkSched K σ d l w o g c) = mkSched K σ d l n o g c.
Proof. reflexivity. Qed.

Lemma set_loop_mk g' v σ d l w o g c :
  set_loop K g' v (mkSched K σ d l w o g c)
  = mkSched K σ d l w o (set_status g' v g) c.
Proof. reflexivity. Qed.

End Setters.

(** Brings a state written with the setters to a record, innermost setter
    first. *)
Ltac setters :=
  repeat first
    [ rewrite set_pc_mk | rewrite log_mk | rewrite set_once_mk
    | rewrite set_done_closed_mk | rewrite set_listener_closed_mk
    | rewrite set_wg_mk | rewrite set_loop_mk
    | rewrite upd_st_mk; cbn beta
    | rewrite st_set_eventLoop_mk | rewrite st_set_chans_mk ];
  cbn [eventLoop chans trace torrentControls connState st done_closed
       listener_closed wg once goroutines callers
       insert list_insert].

Section StopReturns.

Variable K : Collaborators.

(** One loop goroutine runs to its end: it leaves its loop if it is still
    in it and calls [s.wg.Done()] if it has not yet. *)
Lemma run_drain g tcs cs el chs tr dc lc w o gs cl :
  may_leave K g (mkSched K (mkState K tcs cs el chs tr) dc lc w o gs cl)
  = true ->
  status gs g ≠ NotStarted ->
  (alive (status gs g) <= w)%nat ->
  exists ls tr',
    run K ls (mkSched K (mkState K tcs cs el chs tr) dc lc w o gs cl)
    = Some (mkSched K (mkState K tcs cs el chs tr') dc lc
                    (w - alive (status gs g)) o (set_status g Exited gs) cl).
Proof.
  intros Hmay Hst Hw. destruct (status gs g) eqn:Hg; [done| | |].
  - exists [LLeave K g; LDone K g], (tr ++ [ActWgDone g]).
    destruct w as [|w]; [cbn in Hw; lia|].
    cbn [run step]. unfold loops. cbn [goroutines].
    rewrite decide_True by done. rewrite Hmay. cbn [mbind option_bind].
    unfold loops. cbn.
    assert (Hf : status (set_status g Finished gs) g = Finished)
      by (by destruct g).
    rewrite decide_True by done. cbn. rewrite Nat.sub_0_r.
    by destruct g, gs.
  - exists [LDone K g], (tr ++ [ActWgDone g]).
    destruct w as [|w]; [cbn in Hw; lia|].
    cbn [run step]. unfold loops. cbn [goroutines].
    rewrite decide_True by done. cbn. by rewrite Nat.sub_0_r.
  - exists [], tr. cbn. rewrite Nat.sub_0_r.
    by destruct g, gs; cbn in *; subst.
Qed.

Lemma run_first_steps tcs cs el chs tr lc w gs rest :
  run K (replicate 4 (LStop K 0))
      (mkSched K (mkState K tcs cs el chs tr) false lc w OnceIdle gs
               (PcOnceDo :: rest))
  = Some (mkSched K
            (mkState K tcs cs (EventLoop_Stop K el) chs
                     (tr ++ [ActCloseDone; ActListenerClose;
                             ActEventLoopStop]))
            true true w OnceRunning gs (PcWgWait :: rest)).
Proof. cbn. setters. by rewrite <- ?app_assoc. Qed.

Lemma run_wait tcs cs el chs tr dc lc o gs rest :
  run K [LStop K 0; LStop K 0]
      (mkSched K (mkState K tcs cs el chs tr) dc lc 0 o gs (PcWgWait :: rest))
  = Some (mkSched K (mkState K tcs cs el chs (tr ++ [ActWgWait])) dc lc 0 o
                  gs (PcCloseConn (ActiveConns K cs) :: rest)).
Proof. cbn. by setters. Qed.

Lemma run_range tcs cs el chs tr dc lc w o gs rest :
  run K [LStop K 0; LStopRange K 0 (controlKeys tcs)]
      (mkSched K (mkState K tcs cs el chs tr) dc lc w o gs
               (PcCloseConn [] :: rest))
  = Some (mkSched K (mkState K tcs cs el chs tr) dc lc w o gs
                  (PcNotify (allPending tcs) :: rest)).
Proof. cbn. unfold controlKeys. rewrite decide_True by done. by setters. Qed.

Lemma run_complete tcs cs el chs tr dc lc w o gs rest :
  run K [LStop K 0; LStop K 0]
      (mkSched K (mkState K tcs cs el chs tr) dc lc w o gs
               (PcNotify [] :: rest))
  = Some (mkSched K
            (mkState K tcs cs el chs
                     (tr ++ [ActStopComplete; ActStopReturn 0]))
            dc lc w OnceDone gs (PcReturned :: rest)).
Proof. cbn. setters. by rewrite <- ?app_assoc. Qed.

(** X19. [Stop] is able to return. From every state a run can reach in
    which [Stop] has not been called yet and at least one goroutine is about
    to call it, there is a schedule on which every call of [Stop] returns
    and the three loops have exited, provided that the event loop's [Run]
    returns once the loop has been stopped, and that the error channels the
    controls record are distinct and have room. *)
Theorem Stop_can_return cs0 l0 n ls x :
  run K ls (New K cs0 l0 n) = Some x ->
  (0 < n)%nat ->
  once x = OnceIdle ->
  (forall l, EventLoop_stopped K (EventLoop_Stop K l) = true) ->
  NoDup (allPending (torrentControls (st x))) ->
  (forall ch, ch ∈ allPending (torrentControls (st x)) ->
              exists b, chans (st x) !! ch = Some b
                        /\ (length (ch_buf b) < ch_cap b)%nat) ->
  exists ls' x',
    run K ls' x = Some x'
    /\ Forall (eq PcReturned) (callers x')
    /\ (forall g, loops x' g = Exited).
Proof.
  intros Hrun Hn Ho Hstopped Hnd Hroom.
  pose proof (run_callers_length K _ _ _ Hrun) as Hlen.
  pose proof (run_Inv K _ _ _ Hrun (New_Inv K cs0 l0 n)) as [HL HO].
  pose proof (run_InvDone K _ _ _ Hrun (New_Inv K cs0 l0 n)
                          (New_InvDone K cs0 l0 n)) as HD.
  pose proof (inv_done_idle K x HD Ho) as Hdc.
  pose proof (inv_once K x HO) as Hidle. rewrite Ho in Hidle.
  destruct Hidle as [Hall _].
  pose proof (inv_wg K x HL) as Hwg.
  pose proof (inv_started K x HL) as Hst.
  clear Hrun HL HO HD.
  destruct x as [[tcs cs el chs tr] dc lc w o [ge gl gt] cl].
  cbn in *. rewrite length_replicate in Hlen. subst o dc.
  destruct cl as [|pc0 rest]; [cbn in Hlen; lia|].
  apply Forall_cons in Hall as [<- Hall].
  pose proof (Hst EventLoopG) as Hse. pose proof (Hst ListenLoopG) as Hsl.
  pose proof (Hst TickerLoopG) as Hst'. unfold loops in *. cbn in *.
  clear Hst Hlen Hn.
  pose proof (run_first_steps tcs cs el chs tr lc w (mkGoroutines ge gl gt)
                              rest) as R0.
  destruct (run_drain EventLoopG tcs cs (EventLoop_Stop K el) chs
              (tr ++ [ActCloseDone; ActListenerClose; ActEventLoopStop])
              true true w OnceRunning (mkGoroutines ge gl gt)
              (PcWgWait :: rest))
    as (lsE & trE & RE); [apply Hstopped|exact Hse|cbn; lia|].
  cbn [status set_status g_eventLoop g_listenLoop g_tickerLoop] in RE.
  destruct (run_drain ListenLoopG tcs cs (EventLoop_Stop K el) chs trE
              true true (w - alive ge) OnceRunning
              (mkGoroutines Exited gl gt) (PcWgWait :: rest))
    as (lsL & trL & RL); [reflexivity|exact Hsl|cbn; lia|].
  cbn [status set_status g_eventLoop g_listenLoop g_tickerLoop] in RL.
  destruct (run_drain TickerLoopG tcs cs (EventLoop_Stop K el) chs trL
              true true (w - alive ge - alive gl) OnceRunning
              (mkGoroutines Exited Exited gt) (PcWgWait :: rest))
    as (lsT & trT & RT); [reflexivity|exact Hst'|cbn; lia|].
  cbn [status set_status g_eventLoop g_listenLoop g_tickerLoop] in RT.
  replace (w - alive ge - alive gl - alive gt)%nat with 0%nat in RT by lia.
  pose proof (run_wait tcs cs (EventLoop_Stop K el) chs trT true true
                       OnceRunning (mkGoroutines Exited Exited Exited) rest)
    as RW.
  match type of RW with _ = Some ?y =>
    pose proof (run_close_conns K (ActiveConns K cs) y eq_refl) as RC
  end.
  unfold after in RC.
  cbn [st torrentControls connState eventLoop chans trace done_closed
       listener_closed wg once goroutines callers insert list_insert] in RC.
  pose proof (run_range tcs cs (EventLoop_Stop K el) chs
                (trT ++ [ActWgWait] ++ closeActs (ActiveConns K cs))
                true true 0 OnceRunning (mkGoroutines Exited Exited Exited)
                rest) as RR.
  rewrite <- app_assoc in RC.
  match type of RR with _ = Some ?y =>
    destruct (run_notify K (allPending tcs) y eq_refl Hnd Hroom)
      as [chs' RN]
  end.
  unfold after in RN.
  cbn [st torrentControls connState eventLoop chans trace done_closed
       listener_closed wg once goroutines callers insert list_insert] in RN.
  match type of RN with _ = Some (mkSched _ (mkState _ _ _ _ _ ?t) _ _ _ _ _ _)
  => pose proof (run_complete tcs cs (EventLoop_Stop K el) chs' t true true
                   0 OnceRunning (mkGoroutines Exited Exited Exited) rest)
       as RF
  end.
  match type of RF with _ = Some ?y =>
    destruct (run_return_rest K rest [PcReturned] y)
      as (x' & RZ & Hc' & Hg); [done..|]
  end.
  eexists (replicate 4 (LStop K 0) ++ lsE ++ lsL ++ lsT
           ++ [LStop K 0; LStop K 0]
           ++ replicate (length (ActiveConns K cs)) (LStop K 0)
           ++ [LStop K 0; LStopRange K 0 (controlKeys tcs)]
           ++ replicate (length (allPending tcs)) (LStop K 0)
           ++ [LStop K 0; LStop K 0]
           ++ (LStop K <$> seq 1 (length rest))), x'.
  split; [|split].
  - rewrite run_app, R0. cbn [mbind option_bind].
    rewrite run_app, RE. cbn [mbind option_bind].
    rewrite run_app, RL. cbn [mbind option_bind].
    rewrite run_app, RT. cbn [mbind option_bind].
    rewrite run_app, RW. cbn [mbind option_bind].
    rewrite run_app, RC. cbn [mbind option_bind].
    rewrite run_app, RR. cbn [mbind option_bind].
    rewrite run_app, RN. cbn [mbind option_bind].
    rewrite run_app, RF. cbn [mbind option_bind].
    exact RZ.
  - rewrite Hc'. apply Forall_forall. intros pc Hpc.
    apply elem_of_app in Hpc as [Hpc|Hpc].
    + by apply list_elem_of_singleton in Hpc.
    + by apply elem_of_replicate in Hpc as [-> _].
  - intros g. unfold loops. rewrite Hg. by destruct g.
Qed.

End StopReturns.

(** ** Building the scheduler *)

Section ConstructProperties.

Variable K : Collaborators.
Variables Clock Listener : Type.
Variable applyDefaults : Config -> Config + error.
Variable net_Listen : string -> string -> Listener + error.
Variable clock_New : Clock.
Variable newEventLoop : EventLoop K.
Variable newConnState : PeerID -> Config -> Clock -> ConnState K.

(** The options are applied first to last, so of several clocks, or
    several event loops, the last one asked for stays. *)
Lemma applyOptions_requests (rs : list (Clock + EventLoop K)) :
  Construct.applyOptions clock_New newEventLoop (Construct.option_for <$> rs)
  = Construct.mkSchedOverrides K Clock
      (default clock_New (last (Construct.clocks_in rs)))
      (default newEventLoop (last (Construct.loops_in rs))).
Proof.
  unfold Construct.applyOptions, Construct.clocks_in, Construct.loops_in.
  induction rs as [|r rs IH] using rev_ind; [done|].
  rewrite fmap_app, foldl_app, !omap_app, IH. cbn.
  destruct r as [c|l]; cbn; unfold Construct.withClock, Construct.withEventLoop;
    cbn; by rewrite ?last_snoc, ?app_nil_r.
Qed.

(** X20. When [New] succeeds with options made by [withClock] and
    [withEventLoop], one clock and one event loop reach every part it wires
    up: the clock of the last [withClock] (that of [clock.New] when there is
    none) is the scheduler's, both factories', all four tickers' and the one
    given to [newConnState]; the event loop of the last [withEventLoop]
    (that of [newEventLoop] when there is none) is the scheduler's and the
    event sender of both factories. The configuration used is the one
    [applyDefaults] returned, and the scheduler is left as [start] leaves
    it: no controls, [done] open, three loops running and counted. *)
Theorem New_wires_the_last_override cfg pctx rs n b effs :
  Construct.New applyDefaults net_Listen clock_New newEventLoop newConnState
                cfg pctx (Construct.option_for <$> rs) n
  = (inl b, effs) ->
  exists cfg',
    applyDefaults cfg = inl cfg'
    /\ config (Construct.b_fixed b) = cfg'
    /\ Construct.b_sched b
       = New K (newConnState (Construct.pctx_PeerID pctx) cfg'
                  (default clock_New (last (Construct.clocks_in rs))))
               (default newEventLoop (last (Construct.loops_in rs)))
               n
    /\ Forall (eq (default clock_New (last (Construct.clocks_in rs))))
         [ Construct.b_clock b;
           Construct.cf_Clock (Construct.b_connFactory b);
           Construct.df_Clock (Construct.b_dispatcherFactory b);
           Construct.tk_Clock (Construct.b_announceTicker b);
           Construct.tk_Clock (Construct.b_preemptionTicker b);
           Construct.tk_Clock (Construct.b_blacklistCleanupTicker b);
           Construct.tk_Clock (Construct.b_emitStatsTicker b) ]
    /\ Forall (eq (default newEventLoop (last (Construct.loops_in rs))))
         [ eventLoop (st (Construct.b_sched b));
           Construct.cf_EventSender (Construct.b_connFactory b);
           Construct.df_EventSender (Construct.b_dispatcherFactory b) ].
Proof.
  unfold Construct.New. intros H.
  destruct (applyDefaults cfg) as [cfg'|e]; [|done].
  destruct (net_Listen _ _) as [l|e]; [|done].
  rewrite applyOptions_requests in H. cbn in H.
  injection H as <- <-. exists cfg'. cbn.
  split; [done|]. split; [done|]. split; [done|]. split; repeat constructor.
Qed.

(** X21. [New] fails in two ways only. An invalid configuration is
    reported with the prefix "invalid config: " before anything is listened
    on. Otherwise listening on the address of the completed configuration
    failed; that error is returned as it is, and nothing else was done: no
    ticker was made. *)
Theorem New_failure_is_config_or_listen cfg pctx opts n err effs :
  Construct.New applyDefaults net_Listen clock_New newEventLoop newConnState
                cfg pctx opts n
  = (inr err, effs) ->
  (exists e, applyDefaults cfg = inr e
             /\ err = Errorf "invalid config: " e /\ effs = [])
  \/ (exists cfg', applyDefaults cfg = inl cfg'
                   /\ net_Listen "tcp" (ListenAddr cfg') = inr err
                   /\ effs = [Construct.EffListen "tcp" (ListenAddr cfg')]).
Proof.
  unfold Construct.New. intros H.
  destruct (applyDefaults cfg) as [cfg'|e].
  - right. exists cfg'. destruct (net_Listen _ _) as [l|e]; [done|].
    by injection H as <- <-.
  - left. exists e. by injection H as <- <-.
Qed.

End ConstructProperties.

(** * The further properties on concrete inputs *)

Lemma add_functions_agree_on_known_torrent_witness :
  torrentControls refusedPendingKnown !! t_InfoHash demoTorrent
  = Some (newTorrentControl demoDispatcher)
  /\ addIncomingConn testCollaborators refusedConn demoTorrent
                     refusedPendingKnown
     = addOutgoingConn testCollaborators refusedConn demoTorrent
                       refusedPendingKnown.
Proof.
  split; [vm_compute; reflexivity|].
  apply (add_functions_agree_on_known_torrent testCollaborators refusedConn
           demoTorrent refusedPendingKnown (newTorrentControl demoDispatcher)).
  vm_compute. reflexivity.
Defined.

Lemma incoming_add_makes_torrent_known_witness :
  addIncomingConn testCollaborators demoConn demoTorrent pendingState
  = Some (None, pendingAdded)
  /\ (MovePendingToActive testCollaborators (connState pendingState)
                          demoConn).1 = None
  /\ MovePendingToActive testCollaborators (connState pendingAdded) secondConn
     = (None, mkTrackerState [] [demoConn; secondConn] [])
  /\ exists σ2,
       torrentControls pendingAdded !! 7%N
       = Some (newTorrentControl demoDispatcher)
       /\ addOutgoingConn testCollaborators secondConn demoTorrent
                          pendingAdded
          = Some (None, σ2)
       /\ trace σ2 = trace pendingAdded
                     ++ [ActMovePendingToActive secondConn;
                         ActAddConn demoDispatcher secondConn].
Proof.
  assert (H1 : addIncomingConn testCollaborators demoConn demoTorrent
                               pendingState
               = Some (None, pendingAdded)) by (vm_compute; reflexivity).
  assert (H3 : MovePendingToActive testCollaborators (connState pendingAdded)
                                   secondConn
               = (None, mkTrackerState [] [demoConn; secondConn] []))
    by (vm_compute; reflexivity).
  split; [exact H1|]. split; [reflexivity|]. split; [exact H3|].
  destruct (incoming_add_makes_torrent_known testCollaborators demoConn
              secondConn demoTorrent pendingState None pendingAdded
              (mkTrackerState [] [demoConn; secondConn] []) H1 eq_refl H3)
    as (ctrl & r2 & σ2 & Hctrl & Hd & Hadd & Htr & Hr).
  assert (Hc : ctrl = newTorrentControl demoDispatcher).
  { assert (Hl : torrentControls pendingAdded !! t_InfoHash demoTorrent
                 = Some (newTorrentControl demoDispatcher))
      by (vm_compute; reflexivity).
    rewrite Hl in Hctrl. by injection Hctrl as <-. }
  subst ctrl. subst r2. exists σ2.
  split; [vm_compute; reflexivity|]. split; [exact Hadd|exact Htr].
Defined.

Lemma announce_left_is_not_clamped_witness :
  t_Length overfullTorrent < t_BytesDownloaded overfullTorrent
  /\ announceValues testCollaborators (testScheduler "tracker:80")
                    overfullTorrent !! "left"
     = Some ["-60"].
Proof.
  split; [reflexivity|].
  pose proof (announce_left_is_not_clamped testCollaborators
                (testScheduler "tracker:80") overfullTorrent) as H.
  cbv zeta in H. destruct H as (Hleft & _ & _ & Hneg).
  rewrite Hleft, Hneg; [reflexivity|reflexivity|].
  split; [discriminate|reflexivity].
Defined.

Lemma tickerLoop_exits_only_after_done_closed_witness :
  run testCollaborators demoSchedule demoNew = Some demoFinal
  /\ loops demoFinal TickerLoopG = Exited
  /\ done_closed demoFinal = true
  /\ ActCloseDone ∈ trace (st demoFinal).
Proof.
  assert (Hrun : run testCollaborators demoSchedule demoNew = Some demoFinal)
    by (vm_compute; reflexivity).
  destruct (tickerLoop_exits_only_after_done_closed testCollaborators _ _ _ _
              demoFinal Hrun) as (Hleft & _).
  split; [exact Hrun|]. split; [reflexivity|].
  exact (Hleft (or_intror eq_refl)).
Defined.

Lemma shutdown_never_panics_witness :
  run testCollaborators (take 3 demoSchedule) demoNew = Some demoClosing
  /\ callers demoClosing !! 0%nat = Some PcCloseDone
  /\ done_closed demoClosing = false
  /\ is_Some (step testCollaborators (LStop _ 0%nat) demoClosing)
  /\ run testCollaborators (take 6 demoSchedule) demoNew = Some demoLeaving
  /\ loops demoLeaving ListenLoopG = Finished
  /\ (0 < wg demoLeaving)%nat
  /\ is_Some (step testCollaborators (LDone _ ListenLoopG) demoLeaving).
Proof.
  assert (H3 : run testCollaborators (take 3 demoSchedule) demoNew
               = Some demoClosing) by (vm_compute; reflexivity).
  assert (H6 : run testCollaborators (take 6 demoSchedule) demoNew
               = Some demoLeaving) by (vm_compute; reflexivity).
  destruct (shutdown_never_panics testCollaborators _ _ _ _ demoClosing H3)
    as (Hclose & _).
  destruct (shutdown_never_panics testCollaborators _ _ _ _ demoLeaving H6)
    as (_ & Hdone & _).
  destruct (Hclose 0%nat eq_refl) as [Hopen Hstep].
  destruct (Hdone ListenLoopG eq_refl) as [Hpos Hstep'].
  split; [exact H3|]. split; [reflexivity|]. split; [exact Hopen|].
  split; [exact Hstep|]. split; [exact H6|]. split; [reflexivity|].
  split; [exact Hpos|exact Hstep'].
Defined.

Lemma Stop_blocks_all_callers_witness :
  run testCollaborators (take 8 demoSchedule) demoNew = Some demoWaiting
  /\ callers demoWaiting !! 0%nat = Some PcWgWait
  /\ loops demoWaiting TickerLoopG = Running
  /\ stop_blocked testCollaborators demoWaiting
  /\ run testCollaborators fullSchedule demoNew = Some demoFull
  /\ callers demoFull !! 0%nat = Some (PcNotify [0%nat])
  /\ chans (st demoFull) !! 0%nat
     = Some (mkChan 1 [ErrTorrentAlreadyRegistered])
  /\ stop_blocked testCollaborators demoFull
  /\ exists x1 x2,
       step testCollaborators (LRecv _ 0%nat) demoFull = Some x1
       /\ step testCollaborators (LStop _ 0%nat) x1 = Some x2
       /\ callers x2 !! 0%nat = Some (PcNotify [])
       /\ chans (st x2) !! 0%nat = Some (mkChan 1 [ErrSchedulerStopped]).
Proof.
  assert (H8 : run testCollaborators (take 8 demoSchedule) demoNew
               = Some demoWaiting) by (vm_compute; reflexivity).
  assert (Hf : run testCollaborators fullSchedule demoNew = Some demoFull)
    by (vm_compute; reflexivity).
  assert (Hch : chans (st demoFull) !! 0%nat
                = Some (mkChan 1 [ErrTorrentAlreadyRegistered]))
    by (vm_compute; reflexivity).
  destruct (Stop_blocks_all_callers testCollaborators _ _ _ _ demoWaiting
              0%nat H8) as (Hwait & _).
  destruct (Stop_blocks_all_callers testCollaborators _ _ _ _ demoFull
              0%nat Hf) as (_ & Hfull & Hfree).
  split; [exact H8|]. split; [reflexivity|]. split; [reflexivity|].
  split.
  { apply Hwait; [reflexivity|]. exists TickerLoopG. by left. }
  split; [exact Hf|]. split; [reflexivity|]. split; [exact Hch|].
  split.
  { apply (Hfull 0%nat []); [reflexivity|]. right.
    exists (mkChan 1 [ErrTorrentAlreadyRegistered]).
    split; [exact Hch|]. cbn. lia. }
  exact (Hfree 0%nat [] ErrTorrentAlreadyRegistered eq_refl Hch).
Defined.

Lemma state_frozen_after_wait_witness :
  run testCollaborators (take 13 demoSchedule) demoNew = Some demoWaited
  /\ ActWgWait ∈ trace (st demoWaited)
  /\ run testCollaborators (drop 13 demoSchedule) demoWaited = Some demoFinal
  /\ torrentControls (st demoFinal) = torrentControls (st demoWaited)
  /\ connState (st demoFinal) = connState (st demoWaited)
  /\ (forall g, loops demoFinal g = Exited)
  /\ exists tr, trace (st demoFinal) = trace (st demoWaited) ++ tr
                /\ filter (fun a => isHandle a = true) tr = [].
Proof.
  assert (H13 : run testCollaborators (take 13 demoSchedule) demoNew
                = Some demoWaited) by (vm_compute; reflexivity).
  assert (Hw : ActWgWait ∈ trace (st demoWaited)).
  { apply (bool_decide_unpack _). vm_compute. exact I. }
  assert (Hrest : run testCollaborators (drop 13 demoSchedule) demoWaited
                  = Some demoFinal) by (vm_compute; reflexivity).
  split; [exact H13|]. split; [exact Hw|]. split; [exact Hrest|].
  exact (state_frozen_after_wait testCollaborators _ _ _ _ demoWaited _
           demoFinal H13 Hw Hrest).
Defined.


Lemma Stop_can_return_witness :
  run testCollaborators (take 2 demoSchedule) demoNew = Some demoIdle
  /\ once demoIdle = OnceIdle
  /\ allPending (torrentControls (st demoIdle)) = [0%nat]
  /\ chans (st demoIdle) !! 0%nat = Some (make_chan 1)
  /\ exists ls' x',
       run testCollaborators ls' demoIdle = Some x'
       /\ Forall (eq PcReturned) (callers x')
       /\ (forall g, loops x' g = Exited).
Proof.
  assert (H2 : run testCollaborators (take 2 demoSchedule) demoNew
               = Some demoIdle) by (vm_compute; reflexivity).
  assert (Hp : allPending (torrentControls (st demoIdle)) = [0%nat])
    by (vm_compute; reflexivity).
  assert (Hch : chans (st demoIdle) !! 0%nat = Some (make_chan 1))
    by (vm_compute; reflexivity).
  split; [exact H2|]. split; [reflexivity|]. split; [exact Hp|].
  split; [exact Hch|].
  apply (Stop_can_return testCollaborators _ _ 2%nat _ demoIdle H2).
  - lia.
  - reflexivity.
  - intros l. reflexivity.
  - rewrite Hp. apply NoDup_singleton.
  - intros ch Hin. rewrite Hp in Hin.
    apply list_elem_of_singleton in Hin as ->.
    exists (make_chan 1). split; [exact Hch|]. cbn. lia.
Defined.

Lemma New_wires_the_last_override_witness :
  exists b effs,
    testNew (testConfig "tracker:80") demoPeerContext
            (Construct.option_for (K := testCollaborators) <$> demoRequests) 1
    = (inl b, effs)
    /\ Construct.b_clock b = 9%nat
    /\ Construct.tk_Clock (Construct.b_announceTicker b) = 9%nat
    /\ Construct.cf_EventSender (Construct.b_connFactory b) = stoppedLoop
    /\ eventLoop (st (Construct.b_sched b)) = stoppedLoop
    /\ wg (Construct.b_sched b) = 3%nat.
Proof.
  destruct (testNew (testConfig "tracker:80") demoPeerContext
                    (Construct.option_for (K := testCollaborators) <$> demoRequests) 1)
    as [[b|e] effs] eqn:Hnew; [|vm_compute in Hnew; discriminate Hnew].
  exists b, effs. split; [reflexivity|].
  destruct (New_wires_the_last_override testCollaborators nat nat
              testApplyDefaults testListen 0%nat runningLoop
              (fun _ _ _ => mkTrackerState [] [] [])
              (testConfig "tracker:80") demoPeerContext demoRequests 1 b effs
              Hnew)
    as (cfg' & _ & _ & Hs & Hclock & Hloop).
  apply Forall_cons in Hclock as [Hc1 Hclock].
  apply Forall_cons in Hclock as [_ Hclock].
  apply Forall_cons in Hclock as [_ Hclock].
  apply Forall_cons in Hclock as [Hc4 _].
  apply Forall_cons in Hloop as [Hl1 Hloop].
  apply Forall_cons in Hloop as [Hl2 _].
  split; [by rewrite <- Hc1|]. split; [by rewrite <- Hc4|].
  split; [by rewrite <- Hl2|]. split; [by rewrite <- Hl1|].
  by rewrite Hs.
Defined.

Lemma New_failure_is_config_or_listen_witness :
  testNew (testConfig "") demoPeerContext [] 1
  = (inr (ErrorString "invalid config: no tracker"), [])
  /\ testApplyDefaults (testConfig "") = inr (ErrorString "no tracker")
  /\ (exists effs,
        testNew (mkConfig ":80" "tracker:80" 1 1 1 1 1 1) demoPeerContext [] 1
        = (inr (ErrorString "permission denied"), effs)
        /\ effs = [Construct.EffListen "tcp" ":80"]).
Proof.
  assert (H1 : testNew (testConfig "") demoPeerContext [] 1
               = (inr (ErrorString "invalid config: no tracker"), []))
    by (vm_compute; reflexivity).
  split; [exact H1|].
  destruct (New_failure_is_config_or_listen testCollaborators nat nat
              testApplyDefaults testListen 0%nat runningLoop
              (fun _ _ _ => mkTrackerState [] [] [])
              (testConfig "") demoPeerContext [] 1 _ _ H1)
    as [(e & He & _)|(cfg' & He & _)]; [|vm_compute in He; discriminate He].
  split; [vm_compute; reflexivity|].
  destruct (testNew (mkConfig ":80" "tracker:80" 1 1 1 1 1 1) demoPeerContext
                    [] 1) as [[b|e'] effs] eqn:H2;
    [vm_compute in H2; discriminate H2|].
  destruct (New_failure_is_config_or_listen testCollaborators nat nat
              testApplyDefaults testListen 0%nat runningLoop
              (fun _ _ _ => mkTrackerState [] [] [])
              (mkConfig ":80" "tracker:80" 1 1 1 1 1 1) demoPeerContext [] 1
              e' effs H2)
    as [(e2 & He2 & _)|(cfg' & Hd & Hl & Heffs)];
    [vm_compute in He2; discriminate He2|].
  vm_compute in Hd. injection Hd as <-. cbn in Hl, Heffs.
  vm_compute in Hl. injection Hl as <-.
  exists effs. split; [reflexivity|exact Heffs].
Defined.
